(** * SqlAdapterBase: the adapter execution core of @sabl/adp-rdb

    A shallow embedding of [src/sqladapterbase.ts].  The adapter is a class
    over three collaborators (statement source, record mapper, database API).
    Every call of a collaborator is an effect: it is logged in a trace, it may
    throw, it may mutate the record object it is given, and it may open,
    advance or close a cursor.  The methods of the class are written in a
    small state-and-exception monad over that world, statement by statement
    as in the TypeScript source; [try ... finally] is a combinator of the
    monad and the async generator [selectMany] is a resumable state machine
    driven by the iterator protocol ([next] / [return]). *)

From Stdlib Require Import ZArith.
From stdpp Require Import gmap strings list.

Local Open Scope string_scope.

(** ** Values, rows and errors *)

(** JavaScript values as far as the adapter handles them: bind values,
    column values, and the array that holds a parameter list. *)
#[local] Unset Elimination Schemes.
Inductive Value : Type :=
| VUndefined
| VNull
| VBool (b : bool)
| VNum (n : Z)
| VStr (s : string)
| VArr (items : list Value).
#[local] Set Elimination Schemes.

(** The number of nodes of a value. *)
Fixpoint value_size (v : Value) : nat :=
  match v with
  | VArr items => S (list_sum (map value_size items))
  | _ => 1
  end.

(** [row[i]]: an index outside the row reads [undefined]. *)
Definition row_index (row : list Value) (i : nat) : Value :=
  default VUndefined (row !! i).

(** What a call can throw: a [RecordError] with its code and message, or any
    other error raised by a collaborator. *)
Inductive Error : Type :=
| RecordError (code : string) (message : string)
| Thrown (what : string).

Module AdapterError.
Definition MISSING_STATEMENT : string := "adapter:missing-statement".
Definition NON_QUERY : string := "adapter:non-query".
End AdapterError.

(** ** Mapping flags *)

(** Modelled from the spec: [MappingFlags] is defined in [./types], whose
    source is not available.  The mapper's [flags] is a bitset over
    [generatedId], [generatedOnInsert] and [generatedOnUpdate]; each flag is
    one bit. *)
Module MappingFlags.
Definition none : Z := 0.
Definition generatedId : Z := 1.
Definition generatedOnInsert : Z := 2.
Definition generatedOnUpdate : Z := 4.
End MappingFlags.

(** Modelled from the spec: [hasMappingFlag] is defined in [./types] too; it
    tests that the bits of [flag] are set in the bitset [flags]. *)
Definition hasMappingFlag (flags flag : Z) : bool :=
  Z.eqb (Z.land flags flag) flag.

(** ** Collaborators *)

(** A record object is a reference; the heap holds its fields. *)
Definition loc : Type := nat.

(** One answer of a cursor to [next()]: a row, or an error.  A cursor whose
    answers are used up answers [false]. *)
Inductive Fetch : Type :=
| FetchRow (row : list Value)
| FetchFail (e : Error).

(** The result set a query opens: the answers to come, and whether [close()]
    throws. *)
Record RowsScript : Type := {
  fetches : list Fetch;
  closeError : option Error
}.

(** [DbApi]: [query(ctx, sql, ...params)] and [exec(ctx, sql, ...params)]. *)
Record DbApi : Type := {
  dbId : nat;
  dbQuery : string -> list Value -> Error + RowsScript;
  dbExec : string -> list Value -> option Error
}.

(** The call context; [getDbApi] reads the database API it carries, if any. *)
Record IContext : Type := {
  ctxId : nat;
  ctxDbApi : option DbApi
}.

(** [SqlSource]: [null] / [undefined] statements are [None]. *)
Record SqlSource : Type := {
  getInsertSQL : option string;
  getUpdateSQL : option string;
  getDeleteSQL : option string;
  getSelectSQL : list string -> string
}.

(** An open cursor ([Rows]): what is still to be fetched, the current row,
    and how many times [close()] was called on it. *)
Record Rows : Type := {
  pending : list Fetch;
  current : option (list Value);
  closeErr : option Error;
  closed : nat
}.

(** [ParamMap]: a plain object, as the list of its entries in key enumeration
    order; [None] is a missing ([undefined] / [null]) map. *)
Definition ParamMap : Type := option (list (string * Value)).

(** [Object.keys(params || {})]. *)
Definition Object_keys (params : ParamMap) : list string :=
  match params with
  | Some entries => map fst entries
  | None => []
  end.

(** Modelled from the spec: [toParamArray] is defined in [./db-api], whose
    source is not available.  Parameters are flattened from the filter
    mapping into positional order matching the column-name order; a missing
    map has no parameters. *)
Definition toParamArray (params : ParamMap) : list Value :=
  match params with
  | Some entries => map snd entries
  | None => []
  end.

(** Calls to the collaborators, in the order they are made. *)
Inductive Event : Type :=
| EvGetInsertSQL
| EvGetUpdateSQL
| EvGetDeleteSQL
| EvGetSelectSQL (columns : list string)
| EvRequireDbApi (ctx : nat)
| EvGetInsertParams (record : loc)
| EvGetUpdateParams (record : loc)
| EvGetDeleteParams (record : loc)
| EvCreate (record : loc)
| EvLoad (row : list Value) (record : loc)
| EvSetKey (record : loc) (key : Value)
| EvQuery (db ctx : nat) (sql : string) (args : list Value)
| EvExec (db ctx : nat) (sql : string) (args : list Value)
| EvNext (rows : nat)
| EvClose (rows : nat).

Section Adapter.

(** The fields of a record object; opaque to the adapter. *)
Context {TRecord : Type} `{!Inhabited TRecord}.

(** [RecordMapper<TRecord, TKey>]; every method may throw, [load] and
    [setKey] give the new fields of the record they mutate. *)
Record RecordMapper : Type := {
  flags : Z;
  create : Error + TRecord;
  load : list Value -> TRecord -> Error + TRecord;
  getInsertParams : TRecord -> Error + list Value;
  getUpdateParams : TRecord -> Error + list Value;
  getDeleteParams : TRecord -> Error + list Value;
  setKey : TRecord -> Value -> Error + TRecord
}.

(** ** The world and the monad *)

Record World : Type := {
  trace : list Event;
  heap : gmap loc TRecord;
  cursors : gmap nat Rows
}.

Definition M (A : Type) : Type := World -> (Error + A) * World.

Definition ret {A} (a : A) : M A := fun w => (inr a, w).

Definition throw {A} (e : Error) : M A := fun w => (inl e, w).

Definition bind {A B} (m : M A) (k : A -> M B) : M B := fun w =>
  match m w with
  | (inr a, w1) => k a w1
  | (inl e, w1) => (inl e, w1)
  end.

(** [try { body } finally { fin }]: [fin] runs on every completion of
    [body]; if [fin] throws, its error replaces the completion of [body]. *)
Definition try_finally {A} (body : M A) (fin : M unit) : M A := fun w =>
  let '(r, w1) := body w in
  match fin w1 with
  | (inr _, w2) => (r, w2)
  | (inl e, w2) => (inl e, w2)
  end.

Definition emit (e : Event) : M unit := fun w =>
  (inr tt, {| trace := trace w ++ [e]; heap := heap w; cursors := cursors w |}).

Definition lift {A} (r : Error + A) : M A := fun w => (r, w).

Definition set_heap (record : loc) (fields : TRecord) : M unit := fun w =>
  (inr tt, {| trace := trace w; heap := <[record := fields]> (heap w);
              cursors := cursors w |}).

Definition set_cursor (rows : nat) (c : Rows) : M unit := fun w =>
  (inr tt, {| trace := trace w; heap := heap w;
              cursors := <[rows := c]> (cursors w) |}).

Definition get_fields (record : loc) : M TRecord := fun w =>
  (inr (heap w !!! record), w).

Definition get_cursor (rows : nat) : M Rows := fun w =>
  match cursors w !! rows with
  | Some c => (inr c, w)
  | None => (inl (Thrown "not a cursor"), w)
  end.

Declare Scope adapter_scope.
Delimit Scope adapter_scope with adapter.
Notation "'let*' x ':=' m 'in' k" := (bind m (fun x => k))
  (at level 10, x name, m at level 100, k at level 200) : adapter_scope.
Notation "'let*' ' p ':=' m 'in' k" :=
  (bind m (fun x => match x with p => k end))
  (at level 10, p pattern, m at level 100, k at level 200) : adapter_scope.
Notation "m ';;' k" := (bind m (fun _ => k))
  (at level 100, k at level 200, right associativity) : adapter_scope.
Local Open Scope adapter_scope.

(** ** Calls to the collaborators *)

(** The adapter object: its two readonly fields, set by the constructor. *)
Record SqlAdapterBase : Type := {
  sqlSource : SqlSource;
  mapper : RecordMapper
}.

Variable this : SqlAdapterBase.

Definition sqlSource_getInsertSQL : M (option string) :=
  emit EvGetInsertSQL ;; ret (getInsertSQL (sqlSource this)).

Definition sqlSource_getUpdateSQL : M (option string) :=
  emit EvGetUpdateSQL ;; ret (getUpdateSQL (sqlSource this)).

Definition sqlSource_getDeleteSQL : M (option string) :=
  emit EvGetDeleteSQL ;; ret (getDeleteSQL (sqlSource this)).

Definition sqlSource_getSelectSQL (columns : list string) : M string :=
  emit (EvGetSelectSQL columns) ;; ret (getSelectSQL (sqlSource this) columns).

(** Modelled from the spec: [getDbApi] is defined in [./context] and
    [Context.require] in [@sabl/context], whose sources are not available.
    [Context.as(ctx).require(getDbApi)] is a required lookup: it gives the
    database API the context carries, and throws when it carries none. *)
Definition Context_require_getDbApi (ctx : IContext) : M DbApi :=
  emit (EvRequireDbApi (ctxId ctx)) ;;
  match ctxDbApi ctx with
  | Some db => ret db
  | None => throw (Thrown "context: required item is not defined")
  end.

Definition mapper_getInsertParams (record : loc) : M (list Value) :=
  emit (EvGetInsertParams record) ;;
  let* fields := get_fields record in
  lift (getInsertParams (mapper this) fields).

Definition mapper_getUpdateParams (record : loc) : M (list Value) :=
  emit (EvGetUpdateParams record) ;;
  let* fields := get_fields record in
  lift (getUpdateParams (mapper this) fields).

Definition mapper_getDeleteParams (record : loc) : M (list Value) :=
  emit (EvGetDeleteParams record) ;;
  let* fields := get_fields record in
  lift (getDeleteParams (mapper this) fields).

(** [mapper.create()]: the call is logged before it can throw, as every
    other call is, with the reference the new object takes; when [create]
    returns, the new object sits at that reference, which was not in use. *)
Definition mapper_create : M loc := fun w =>
  let record := fresh (dom (heap w)) in
  (emit (EvCreate record) ;;
   let* fields := lift (create (mapper this)) in
   set_heap record fields ;;
   ret record) w.

Definition mapper_load (row : list Value) (record : loc) : M unit :=
  emit (EvLoad row record) ;;
  let* fields := get_fields record in
  let* fields' := lift (load (mapper this) row fields) in
  set_heap record fields'.

Definition mapper_setKey (record : loc) (key : Value) : M unit :=
  emit (EvSetKey record key) ;;
  let* fields := get_fields record in
  let* fields' := lift (setKey (mapper this) fields key) in
  set_heap record fields'.

(** [db.query(ctx, sql, ...args)]: on success a new open cursor. *)
Definition db_query (db : DbApi) (ctx : IContext) (sql : string)
    (args : list Value) : M nat :=
  emit (EvQuery (dbId db) (ctxId ctx) sql args) ;;
  let* script := lift (dbQuery db sql args) in
  fun w =>
    let rows := fresh (dom (cursors w)) in
    (set_cursor rows {| pending := fetches script; current := None;
                        closeErr := closeError script; closed := 0 |} ;;
     ret rows) w.

(** [db.exec(ctx, sql, ...args)]. *)
Definition db_exec (db : DbApi) (ctx : IContext) (sql : string)
    (args : list Value) : M unit :=
  emit (EvExec (dbId db) (ctxId ctx) sql args) ;;
  match dbExec db sql args with
  | Some e => throw e
  | None => ret tt
  end.

(** [rows.next()]: advances the cursor by one answer. *)
Definition rows_next (rows : nat) : M bool :=
  emit (EvNext rows) ;;
  let* c := get_cursor rows in
  match pending c with
  | [] => ret false
  | FetchRow row :: rest =>
      set_cursor rows {| pending := rest; current := Some row;
                         closeErr := closeErr c; closed := closed c |} ;;
      ret true
  | FetchFail e :: rest =>
      set_cursor rows {| pending := rest; current := current c;
                         closeErr := closeErr c; closed := closed c |} ;;
      throw e
  end.

(** [rows.row]: the current row. *)
Definition rows_row (rows : nat) : M (list Value) :=
  let* c := get_cursor rows in
  match current c with
  | Some row => ret row
  | None => throw (Thrown "no current row")
  end.

(** [rows.close()]. *)
Definition rows_close (rows : nat) : M unit :=
  emit (EvClose rows) ;;
  let* c := get_cursor rows in
  set_cursor rows {| pending := pending c; current := current c;
                     closeErr := closeErr c; closed := S (closed c) |} ;;
  match closeErr c with
  | Some e => throw e
  | None => ret tt
  end.

(** ** The methods of [SqlAdapterBase] *)

Definition toRecord (row : list Value) : M loc :=
  let* record := mapper_create in
  mapper_load row record ;;
  ret record.

Definition insert (ctx : IContext) (record : loc) : M unit :=
  let* sql := sqlSource_getInsertSQL in
  match sql with
  | None =>
      throw (RecordError AdapterError.MISSING_STATEMENT "INSERT SQL not defined")
  | Some sql =>
      let* db := Context_require_getDbApi ctx in
      let* params := mapper_getInsertParams record in
      if hasMappingFlag (flags (mapper this)) MappingFlags.generatedOnInsert then
        let* rows := db_query db ctx sql params in
        try_finally
          (let* has := rows_next rows in
           if negb has then
             throw (RecordError AdapterError.NON_QUERY
                      "Expected inserted row, but insert query returned no row")
           else
             let* row := rows_row rows in
             mapper_load row record)
          (rows_close rows)
      else if hasMappingFlag (flags (mapper this)) MappingFlags.generatedId then
        let* rows := db_query db ctx sql params in
        try_finally
          (let* has := rows_next rows in
           if negb has then
             throw (RecordError AdapterError.NON_QUERY
                      "Expected generated id, but insert query returned no row")
           else
             let* row := rows_row rows in
             mapper_setKey record (row_index row 0))
          (rows_close rows)
      else
        db_exec db ctx sql params
  end.

Definition update (ctx : IContext) (record : loc) : M unit :=
  let* sql := sqlSource_getUpdateSQL in
  match sql with
  | None =>
      throw (RecordError AdapterError.MISSING_STATEMENT "UPDATE SQL not defined")
  | Some sql =>
      let* db := Context_require_getDbApi ctx in
      let* params := mapper_getUpdateParams record in
      if hasMappingFlag (flags (mapper this)) MappingFlags.generatedOnUpdate then
        let* rows := db_query db ctx sql params in
        try_finally
          (let* has := rows_next rows in
           if negb has then
             throw (RecordError AdapterError.NON_QUERY
                      "Expected updated row, but update query returned no row")
           else
             let* row := rows_row rows in
             mapper_load row record)
          (rows_close rows)
      else
        db_exec db ctx sql params
  end.

(** [delete] hands the parameter array to [exec] as it is, as one
    argument: [db.exec(ctx, sql, params)]. *)
Definition delete (ctx : IContext) (record : loc) : M unit :=
  let* sql := sqlSource_getDeleteSQL in
  match sql with
  | None =>
      throw (RecordError AdapterError.MISSING_STATEMENT "DELETE SQL not defined")
  | Some sql =>
      let* db := Context_require_getDbApi ctx in
      let* params := mapper_getDeleteParams record in
      db_exec db ctx sql [VArr params]
  end.

(** The first argument of [selectOne] / [selectMany]: SQL text or a
    parameter map ([typeof sqlOrParams === 'string'] or not). *)
Inductive SqlOrParams : Type :=
| IsString (sql : string)
| IsParams (params : ParamMap).

(** The common head of [selectOne] and [selectMany]: settles [sql] and
    [params] from the shape of the arguments. *)
Definition resolveSelect (sqlOrParams : SqlOrParams) (params : ParamMap)
    : M (string * ParamMap) :=
  match sqlOrParams with
  | IsString sql => ret (sql, params)
  | IsParams params =>
      let* sql := sqlSource_getSelectSQL (Object_keys params) in
      ret (sql, params)
  end.

Definition selectOne (ctx : IContext) (sqlOrParams : SqlOrParams)
    (params : ParamMap) : M (option loc) :=
  let* '(sql, params) := resolveSelect sqlOrParams params in
  let* db := Context_require_getDbApi ctx in
  let* rows := db_query db ctx sql (toParamArray params) in
  try_finally
    (let* has := rows_next rows in
     if negb has then ret None
     else
       let* row := rows_row rows in
       let* record := toRecord row in
       ret (Some record))
    (rows_close rows).

(** ** The async generator [selectMany]

    Calling [selectMany] runs nothing: it makes a generator object.  The
    body runs when the consumer asks, from where it was suspended up to the
    next [yield] or to its end.  The generator is suspended at its start,
    or at the [yield] (inside the [try], with the cursor [rows] open), or
    it is completed. *)
Inductive Generator : Type :=
| SuspendedStart (ctx : IContext) (sqlOrParams : SqlOrParams) (params : ParamMap)
| SuspendedYield (rows : nat)
| Completed.

(** [{ value, done: false }] or [{ done: true }]. *)
Inductive IteratorResult : Type :=
| Yielded (value : loc)
| Done.

(** A step of a generator: its new state, and what the consumer gets. *)
Definition G : Type := World -> (Generator * (Error + IteratorResult)) * World.

Definition selectMany (ctx : IContext) (sqlOrParams : SqlOrParams)
    (params : ParamMap) : Generator :=
  SuspendedStart ctx sqlOrParams params.

Definition selectAll (ctx : IContext) : Generator :=
  selectMany ctx (IsParams (Some [])) None.

(** From the start of the body to the opened cursor (before the [try]). *)
Definition selectMany_open (ctx : IContext) (sqlOrParams : SqlOrParams)
    (params : ParamMap) : M nat :=
  let* '(sql, params) := resolveSelect sqlOrParams params in
  let* db := Context_require_getDbApi ctx in
  db_query db ctx sql (toParamArray params).

(** From the head of the [while] to the operand of the next [yield]
    ([Some]) or to the exit of the loop ([None]). *)
Definition selectMany_loop (rows : nat) : M (option loc) :=
  let* has := rows_next rows in
  if has then
    let* row := rows_row rows in
    let* record := toRecord row in
    ret (Some record)
  else ret None.

(** Run the loop inside the [try]: suspend at the [yield], or leave the
    [try] (loop exit or error) through the [finally]. *)
Definition selectMany_resume (rows : nat) : G := fun w =>
  match selectMany_loop rows w with
  | (inr (Some record), w1) => (SuspendedYield rows, inr (Yielded record), w1)
  | (r, w1) =>
      let '(r', w2) := try_finally (lift r ;; ret Done) (rows_close rows) w1 in
      (Completed, r', w2)
  end.

(** [gen.next()]. *)
Definition gen_next (g : Generator) : G := fun w =>
  match g with
  | SuspendedStart ctx sqlOrParams params =>
      match selectMany_open ctx sqlOrParams params w with
      | (inr rows, w1) => selectMany_resume rows w1
      | (inl e, w1) => (Completed, inl e, w1)
      end
  | SuspendedYield rows => selectMany_resume rows w
  | Completed => (Completed, inr Done, w)
  end.

(** [gen.return()]: a generator suspended at the [yield] leaves the [try]
    through the [finally]; one that has not started just completes. *)
Definition gen_return (g : Generator) : G := fun w =>
  match g with
  | SuspendedYield rows =>
      let '(r, w1) := try_finally (ret Done) (rows_close rows) w in
      (Completed, r, w1)
  | SuspendedStart _ _ _ | Completed => (Completed, inr Done, w)
  end.

(** [gen.throw(e)]: as [return], with [e] as the completion. *)
Definition gen_throw (e : Error) (g : Generator) : G := fun w =>
  match g with
  | SuspendedYield rows =>
      let '(r, w1) := try_finally (throw e) (rows_close rows) w in
      (Completed, r, w1)
  | SuspendedStart _ _ _ | Completed => (Completed, inl e, w)
  end.

(** What a consumer may ask of the generator. *)
Inductive Request : Type :=
| ReqNext
| ReqReturn
| ReqThrow (e : Error).

Definition gen_step (rq : Request) (g : Generator) : G :=
  match rq with
  | ReqNext => gen_next g
  | ReqReturn => gen_return g
  | ReqThrow e => gen_throw e g
  end.

(** Any consumer: a sequence of requests, whatever the answers. *)
Fixpoint gen_run (rqs : list Request) (g : Generator) (w : World)
    : Generator * World :=
  match rqs with
  | [] => (g, w)
  | rq :: rqs' =>
      let '(g1, _, w1) := gen_step rq g w in
      gen_run rqs' g1 w1
  end.

(** [for await (const r of gen) { ... }] where the loop body breaks at the
    record of index [k] (so at most [k + 1] records are taken): [next()]
    until done, and [return()] on the break.  The records taken so far are
    kept on every outcome. *)
Fixpoint for_await (k : nat) (g : Generator) (w : World)
    : (list loc * option Error) * Generator * World :=
  match gen_next g w with
  | (g1, inl e, w1) => (([], Some e), g1, w1)
  | (g1, inr Done, w1) => (([], None), g1, w1)
  | (g1, inr (Yielded r), w1) =>
      match k with
      | 0 =>
          match gen_return g1 w1 with
          | (g2, inl e, w2) => (([r], Some e), g2, w2)
          | (g2, inr _, w2) => (([r], None), g2, w2)
          end
      | S k' =>
          let '((rs, err), g2, w2) := for_await k' g1 w1 in
          ((r :: rs, err), g2, w2)
      end
  end.

End Adapter.

Arguments RecordMapper TRecord : clear implicits.
Arguments SqlAdapterBase TRecord : clear implicits.
Arguments World TRecord : clear implicits.

(** ** A small instance, used to run the model

    Records are key/name pairs; the mapper loads the first two columns. *)
Module Sample.

Definition fields : Type := Value * Value.

#[global] Instance fields_inhabited : Inhabited fields :=
  populate (VUndefined, VUndefined).

Definition sampleMapper (fl : Z) : RecordMapper fields := {|
  flags := fl;
  create := inr (VUndefined, VUndefined);
  load := fun row _ => inr (row_index row 0, row_index row 1);
  getInsertParams := fun f => inr [snd f];
  getUpdateParams := fun f => inr [snd f; fst f];
  getDeleteParams := fun f => inr [fst f; snd f];
  setKey := fun f key => inr (key, snd f)
|}.

Definition sampleSource : SqlSource := {|
  getInsertSQL := Some "INSERT ... RETURNING id";
  getUpdateSQL := Some "UPDATE ...";
  getDeleteSQL := Some "DELETE ...";
  getSelectSQL := fun cols => String.concat "," ("SELECT" :: cols)
|}.

Definition noSource : SqlSource := {|
  getInsertSQL := None;
  getUpdateSQL := None;
  getDeleteSQL := None;
  getSelectSQL := fun cols => String.concat "," ("SELECT" :: cols)
|}.

Definition sampleDb (rows : list (list Value)) : DbApi := {|
  dbId := 7;
  dbQuery := fun _ _ => inr {| fetches := map FetchRow rows; closeError := None |};
  dbExec := fun _ _ => None
|}.

Definition sampleCtx (rows : list (list Value)) : IContext :=
  {| ctxId := 1; ctxDbApi := Some (sampleDb rows) |}.

Definition emptyCtx : IContext := {| ctxId := 2; ctxDbApi := None |}.

Definition adapter (fl : Z) : SqlAdapterBase fields :=
  {| sqlSource := sampleSource; mapper := sampleMapper fl |}.

Definition bareAdapter : SqlAdapterBase fields :=
  {| sqlSource := noSource; mapper := sampleMapper MappingFlags.none |}.

Definition loadedFields (row : list Value) : fields :=
  (row_index row 0, row_index row 1).

Definition people : list (list Value) :=
  [[VNum 42; VStr "bob"]; [VNum 43; VStr "cy"]].

Definition byStatus : SqlOrParams :=
  IsParams (Some [("status", VStr "active")]).

(** A world with one record object, at reference 0. *)
Definition w0 : World fields :=
  {| trace := []; heap := {[ 0 := (VNull, VStr "ann") ]}; cursors := ∅ |}.

End Sample.

(** ** The effective statement of a select

    What the head of [selectOne] / [selectMany] settles, as functions of the
    arguments: the SQL text, the parameter map, and the calls made to the
    statement source on the way. *)
Section Effective.

Context {TRecord : Type}.
Variable this : SqlAdapterBase TRecord.

Definition effective_sql (sqlOrParams : SqlOrParams) : string :=
  match sqlOrParams with
  | IsString sql => sql
  | IsParams params => getSelectSQL (sqlSource this) (Object_keys params)
  end.

Definition effective_params (sqlOrParams : SqlOrParams) (params : ParamMap)
    : ParamMap :=
  match sqlOrParams with
  | IsString _ => params
  | IsParams params => params
  end.

Definition resolve_events (sqlOrParams : SqlOrParams) : list Event :=
  match sqlOrParams with
  | IsString _ => []
  | IsParams params => [EvGetSelectSQL (Object_keys params)]
  end.

(** The calls from the start of a select up to the query it issues. *)
Definition query_events (ctx : IContext) (db : DbApi)
    (sqlOrParams : SqlOrParams) (params : ParamMap) : list Event :=
  resolve_events sqlOrParams ++
  [EvRequireDbApi (ctxId ctx);
   EvQuery (dbId db) (ctxId ctx) (effective_sql sqlOrParams)
     (toParamArray (effective_params sqlOrParams params))].

End Effective.

(** ** Cursor accounting *)
Section Accounting.

Context {TRecord : Type}.

(** Between [w] and [w']: the cursors that [w] had are as they were, and
    every cursor opened since has had exactly one [close()]. *)
Definition cursors_released (w w' : World TRecord) : Prop :=
  forall c,
    match cursors w !! c with
    | Some cur => cursors w' !! c = Some cur
    | None => forall cur, cursors w' !! c = Some cur -> closed cur = 1
    end.

(** The same for a generator, by its state: before its start nothing is
    opened; suspended at the [yield] it holds one cursor, [rows], opened
    since [w] and not closed yet; completed, all is released. *)
Definition gen_cursors (w : World TRecord) (g : Generator) (w' : World TRecord)
    : Prop :=
  match g with
  | SuspendedStart _ _ _ => cursors w' = cursors w
  | SuspendedYield rows =>
      cursors w !! rows = None /\
      (exists cur, cursors w' !! rows = Some cur /\ closed cur = 0) /\
      (forall c, c <> rows -> cursors w' !! c = cursors w !! c)
  | Completed => cursors_released w w'
  end.

(** A computation that leaves the cursors alone. *)
Definition keeps_cursors {A} (m : M A) : Prop :=
  forall w : World TRecord, cursors (m w).2 = cursors w.

(** A computation that works on the open cursor [rows] only, and calls
    [close()] on it [n] times, however it completes. *)
Definition on_cursor {A} (rows n : nat) (m : M A) : Prop :=
  forall (w : World TRecord) cur,
    cursors w !! rows = Some cur ->
    exists cur',
      cursors (m w).2 = <[rows := cur']> (cursors w) /\
      closed cur' = n + closed cur.

(** A computation that closes once every cursor it opens. *)
Definition releases {A} (m : M A) : Prop :=
  forall w : World TRecord, cursors_released w (m w).2.

(** The calls of one traversal that takes [records] from the rows [data]
    of cursor [c], up to the last record. *)
Fixpoint traversal_events (c : nat) (records : list loc)
    (data : list (list Value)) : list Event :=
  match records, data with
  | r :: records', row :: data' =>
      EvNext c :: EvCreate r :: EvLoad row r :: traversal_events c records' data'
  | _, _ => []
  end.

End Accounting.

(** The error of a required context item that is missing. *)
Definition missing_item : Error := Thrown "context: required item is not defined".

(** ** Footprints *)
Section Footprints.

Context {TRecord : Type}.

(** A computation (or a step of the generator) whose final world is always
    related by [R] to the world it starts in, however it completes. *)
Definition world_step {B} (R : World TRecord -> World TRecord -> Prop)
    (f : World TRecord -> B * World TRecord) : Prop :=
  forall w, R w (f w).2.

(** No record object was changed or made. *)
Definition same_heap (w w' : World TRecord) : Prop :=
  heap w' = heap w.

(** No record object other than [record] was changed or made. *)
Definition heap_outside (record : loc) (w w' : World TRecord) : Prop :=
  forall l, l <> record -> heap w' !! l = heap w !! l.

(** Every record object there was is still there, with the same fields. *)
Definition heap_extends (w w' : World TRecord) : Prop :=
  forall l fields, heap w !! l = Some fields -> heap w' !! l = Some fields.

(** The calls made since [w] are all in the class [allowed]. *)
Definition calls_only (allowed : Event -> bool) (w w' : World TRecord) : Prop :=
  exists evs, trace w' = (trace w ++ evs)%list /\ forallb allowed evs = true.

Definition is_executor_call (e : Event) : bool :=
  match e with
  | EvQuery _ _ _ _ | EvExec _ _ _ _ => true
  | _ => false
  end.

Fixpoint executor_calls (evs : list Event) : nat :=
  match evs with
  | [] => 0
  | e :: evs' => (if is_executor_call e then 1 else 0) + executor_calls evs'
  end.

(** At most [n] calls to the executor ([query] or [exec]) since [w]. *)
Definition executor_calls_at_most (n : nat) (w w' : World TRecord) : Prop :=
  exists evs, trace w' = (trace w ++ evs)%list /\ executor_calls evs <= n.

Definition no_executor_call (e : Event) : bool := negb (is_executor_call e).

(** The calls [insert] may make, by the flags of the mapper. *)
Definition insert_call (fl : Z) (e : Event) : bool :=
  let onInsert := hasMappingFlag fl MappingFlags.generatedOnInsert in
  let genId := hasMappingFlag fl MappingFlags.generatedId in
  match e with
  | EvGetInsertSQL | EvRequireDbApi _ | EvGetInsertParams _ => true
  | EvQuery _ _ _ _ | EvNext _ | EvClose _ => onInsert || genId
  | EvLoad _ _ => onInsert
  | EvSetKey _ _ => negb onInsert && genId
  | EvExec _ _ _ _ => negb onInsert && negb genId
  | _ => false
  end.

(** The calls [update] may make, by the flags of the mapper. *)
Definition update_call (fl : Z) (e : Event) : bool :=
  let onUpdate := hasMappingFlag fl MappingFlags.generatedOnUpdate in
  match e with
  | EvGetUpdateSQL | EvRequireDbApi _ | EvGetUpdateParams _ => true
  | EvQuery _ _ _ _ | EvNext _ | EvClose _ | EvLoad _ _ => onUpdate
  | EvExec _ _ _ _ => negb onUpdate
  | _ => false
  end.

(** The calls [delete] may make. *)
Definition delete_call (e : Event) : bool :=
  match e with
  | EvGetDeleteSQL | EvRequireDbApi _ | EvGetDeleteParams _
  | EvExec _ _ _ _ => true
  | _ => false
  end.

(** The calls a select may make, by the shape of its first argument. *)
Definition select_call (sqlOrParams : SqlOrParams) (e : Event) : bool :=
  match e with
  | EvGetSelectSQL _ =>
      match sqlOrParams with IsString _ => false | IsParams _ => true end
  | EvRequireDbApi _ | EvQuery _ _ _ _ | EvNext _ | EvClose _
  | EvCreate _ | EvLoad _ _ => true
  | _ => false
  end.

(** The calls of a select once its query is issued. *)
Definition cursor_call (e : Event) : bool :=
  match e with
  | EvNext _ | EvClose _ | EvCreate _ | EvLoad _ _ => true
  | _ => false
  end.

(** A generator of [selectMany] for the first argument [sqlOrParams], in any
    of its states. *)
Definition generator_of (sqlOrParams : SqlOrParams) (g : Generator) : Prop :=
  match g with
  | SuspendedStart _ sqlOrParams' _ => sqlOrParams' = sqlOrParams
  | _ => True
  end.

Definition has_started (g : Generator) : Prop :=
  match g with
  | SuspendedStart _ _ _ => False
  | _ => True
  end.

End Footprints.

(** ** Collaborators that fail, used to run the model *)
Module Faulty.

Definition lost : Error := Thrown "connection lost".
Definition badRecord : Error := Thrown "bad record".
Definition badRow : Error := Thrown "bad row".

(** A mapper that cannot extract the parameters of a record. *)
Definition noParamsMapper (fl : Z) : RecordMapper Sample.fields := {|
  flags := fl;
  create := inr (VUndefined, VUndefined);
  load := fun row _ => inr (Sample.loadedFields row);
  getInsertParams := fun _ => inl badRecord;
  getUpdateParams := fun _ => inl badRecord;
  getDeleteParams := fun _ => inl badRecord;
  setKey := fun f key => inr (key, snd f)
|}.

(** A mapper that cannot load a row whose first column is [null]. *)
Definition strictMapper : RecordMapper Sample.fields := {|
  flags := MappingFlags.none;
  create := inr (VUndefined, VUndefined);
  load := fun row _ =>
    match row_index row 0 with
    | VNull => inl badRow
    | _ => inr (Sample.loadedFields row)
    end;
  getInsertParams := fun f => inr [snd f];
  getUpdateParams := fun f => inr [snd f; fst f];
  getDeleteParams := fun f => inr [fst f; snd f];
  setKey := fun f key => inr (key, snd f)
|}.

(** A mapper that cannot make a record. *)
Definition noCreateMapper : RecordMapper Sample.fields := {|
  flags := MappingFlags.none;
  create := inl badRecord;
  load := fun row _ => inr (Sample.loadedFields row);
  getInsertParams := fun f => inr [snd f];
  getUpdateParams := fun f => inr [snd f; fst f];
  getDeleteParams := fun f => inr [fst f; snd f];
  setKey := fun f key => inr (key, snd f)
|}.

Definition noCreateAdapter : SqlAdapterBase Sample.fields :=
  {| sqlSource := Sample.sampleSource; mapper := noCreateMapper |}.

Definition noParamsAdapter (fl : Z) : SqlAdapterBase Sample.fields :=
  {| sqlSource := Sample.sampleSource; mapper := noParamsMapper fl |}.

Definition strictAdapter : SqlAdapterBase Sample.fields :=
  {| sqlSource := Sample.sampleSource; mapper := strictMapper |}.

(** A database API whose calls all throw. *)
Definition downDb : DbApi := {|
  dbId := 8;
  dbQuery := fun _ _ => inl lost;
  dbExec := fun _ _ => Some lost
|}.

(** A database API whose cursors give the answers [answers]. *)
Definition scriptedDb (answers : list Fetch) : DbApi := {|
  dbId := 9;
  dbQuery := fun _ _ => inr {| fetches := answers; closeError := None |};
  dbExec := fun _ _ => None
|}.

Definition ctxOf (db : DbApi) : IContext := {| ctxId := 3; ctxDbApi := Some db |}.

End Faulty.

(** ** Running the monad symbolically *)

Ltac unfold_calls :=
  unfold insert, update, delete, selectOne, selectMany_open, selectMany_loop,
    toRecord, resolveSelect,
    sqlSource_getInsertSQL, sqlSource_getUpdateSQL, sqlSource_getDeleteSQL,
    sqlSource_getSelectSQL, Context_require_getDbApi,
    mapper_getInsertParams, mapper_getUpdateParams, mapper_getDeleteParams,
    mapper_create, mapper_load, mapper_setKey,
    db_query, db_exec, rows_next, rows_row, rows_close,
    try_finally, get_fields, get_cursor, set_heap, set_cursor,
    lift, emit, bind, ret, throw in *.

Ltac run :=
  repeat (progress (simpl;
    repeat match goal with
    | H : _ = _ |- _ => rewrite H
    end;
    rewrite ?lookup_insert_eq, ?lookup_total_insert_eq, ?insert_insert_eq));
  rewrite <- ?app_assoc; simpl.

Create HintDb cursors.

(** Case analysis on the answer of a collaborator, then run on. *)
Ltac on_answer t := destruct t eqn:?; run.

Local Open Scope list_scope.

Section Properties.

Context {TRecord : Type} `{!Inhabited TRecord}.
Variable this : SqlAdapterBase TRecord.

Lemma resolveSelect_run (sqlOrParams : SqlOrParams) (params : ParamMap)
    (w : World TRecord) :
  resolveSelect this sqlOrParams params w =
    (inr (effective_sql this sqlOrParams, effective_params sqlOrParams params),
     {| trace := trace w ++ resolve_events sqlOrParams;
        heap := heap w; cursors := cursors w |}).
Proof.
  destruct sqlOrParams, w; unfold_calls; simpl; rewrite ?app_nil_r; reflexivity.
Qed.

Lemma array_is_not_its_items (params : list Value) : [VArr params] <> params.
Proof.
  intros Heq. apply (f_equal (fun l => list_sum (map value_size l))) in Heq.
  simpl in Heq. lia.
Qed.

(** C1 (what the code does): with a statement, a database API and delete
    parameters [params], [delete] resolves the statement, asks the mapper for
    the parameters and issues one [exec] and no query; but the executor
    receives ONE bind argument, the array [params] itself, and that is never
    the argument list [params] of a positional call. *)
Theorem delete_passes_params_as_one_argument (ctx : IContext) (record : loc)
    (w : World TRecord) (sql : string) (db : DbApi) (params : list Value) :
  getDeleteSQL (sqlSource this) = Some sql ->
  ctxDbApi ctx = Some db ->
  getDeleteParams (mapper this) (heap w !!! record) = inr params ->
  delete this ctx record w =
    (match dbExec db sql [VArr params] with Some e => inl e | None => inr tt end,
     {| trace := trace w ++
          [EvGetDeleteSQL; EvRequireDbApi (ctxId ctx); EvGetDeleteParams record;
           EvExec (dbId db) (ctxId ctx) sql [VArr params]];
        heap := heap w; cursors := cursors w |}) /\
  [VArr params] <> params.
Proof.
  intros Hsql Hdb Hparams. split; [|apply array_is_not_its_items].
  unfold_calls. run.
  destruct (dbExec db sql [VArr params]); reflexivity.
Qed.

(** C3: with [generatedId] (and not [generatedOnInsert]), [insert] runs the
    statement as one query and never as a command.  On zero rows it calls
    [next] and [close] only, leaves the record as it was and fails with
    [NON_QUERY]; on a row it calls [setKey] once, with column 0 of that
    row, and issues nothing else. *)
Theorem insert_generatedId (ctx : IContext) (record : loc) (w : World TRecord)
    (sql : string) (db : DbApi) (params : list Value) (script : RowsScript) :
  hasMappingFlag (flags (mapper this)) MappingFlags.generatedOnInsert = false ->
  hasMappingFlag (flags (mapper this)) MappingFlags.generatedId = true ->
  getInsertSQL (sqlSource this) = Some sql ->
  ctxDbApi ctx = Some db ->
  getInsertParams (mapper this) (heap w !!! record) = inr params ->
  dbQuery db sql params = inr script ->
  let rows := fresh (dom (cursors w)) in
  let issued := trace w ++
    [EvGetInsertSQL; EvRequireDbApi (ctxId ctx); EvGetInsertParams record;
     EvQuery (dbId db) (ctxId ctx) sql params] in
  (fetches script = [] ->
     trace (insert this ctx record w).2 = issued ++ [EvNext rows; EvClose rows] /\
     heap (insert this ctx record w).2 = heap w /\
     (closeError script = None ->
      (insert this ctx record w).1 =
        inl (RecordError AdapterError.NON_QUERY
               "Expected generated id, but insert query returned no row"))) /\
  (forall row rest, fetches script = FetchRow row :: rest ->
     trace (insert this ctx record w).2 =
       issued ++ [EvNext rows; EvSetKey record (row_index row 0); EvClose rows] /\
     (forall fields',
        setKey (mapper this) (heap w !!! record) (row_index row 0) = inr fields' ->
        heap (insert this ctx record w).2 = <[record := fields']> (heap w) /\
        (closeError script = None -> (insert this ctx record w).1 = inr tt))).
Proof.
  intros Hf1 Hf2 Hsql Hdb Hparams Hq rows issued. subst rows issued.
  split.
  - intros Hz. unfold_calls. run.
    on_answer (closeError script); repeat split; auto; discriminate.
  - intros row rest Hrow. split.
    + unfold_calls. run.
      on_answer (setKey (mapper this) (heap w !!! record) (row_index row 0));
        on_answer (closeError script); reflexivity.
    + intros fields' Hkey. unfold_calls. run.
      on_answer (closeError script); split; auto; discriminate.
Qed.

(** C4: with [generatedOnInsert], [insert] runs the statement as a query:
    on a row it calls [load] once, with that row and the record, and the
    record takes the loaded fields; on zero rows it fails with [NON_QUERY].
    [update] with [generatedOnUpdate] does the same. *)
Theorem generated_row_is_loaded (ctx : IContext) (record : loc)
    (w : World TRecord) (sql : string) (db : DbApi) (params : list Value)
    (script : RowsScript) :
  ctxDbApi ctx = Some db ->
  dbQuery db sql params = inr script ->
  let rows := fresh (dom (cursors w)) in
  (hasMappingFlag (flags (mapper this)) MappingFlags.generatedOnInsert = true ->
   getInsertSQL (sqlSource this) = Some sql ->
   getInsertParams (mapper this) (heap w !!! record) = inr params ->
   let issued := trace w ++
     [EvGetInsertSQL; EvRequireDbApi (ctxId ctx); EvGetInsertParams record;
      EvQuery (dbId db) (ctxId ctx) sql params] in
   (fetches script = [] ->
      trace (insert this ctx record w).2 = issued ++ [EvNext rows; EvClose rows] /\
      heap (insert this ctx record w).2 = heap w /\
      (closeError script = None ->
       (insert this ctx record w).1 =
         inl (RecordError AdapterError.NON_QUERY
                "Expected inserted row, but insert query returned no row"))) /\
   (forall row rest, fetches script = FetchRow row :: rest ->
      trace (insert this ctx record w).2 =
        issued ++ [EvNext rows; EvLoad row record; EvClose rows] /\
      (forall fields',
         load (mapper this) row (heap w !!! record) = inr fields' ->
         heap (insert this ctx record w).2 = <[record := fields']> (heap w) /\
         (closeError script = None -> (insert this ctx record w).1 = inr tt)))) /\
  (hasMappingFlag (flags (mapper this)) MappingFlags.generatedOnUpdate = true ->
   getUpdateSQL (sqlSource this) = Some sql ->
   getUpdateParams (mapper this) (heap w !!! record) = inr params ->
   let issued := trace w ++
     [EvGetUpdateSQL; EvRequireDbApi (ctxId ctx); EvGetUpdateParams record;
      EvQuery (dbId db) (ctxId ctx) sql params] in
   (fetches script = [] ->
      trace (update this ctx record w).2 = issued ++ [EvNext rows; EvClose rows] /\
      heap (update this ctx record w).2 = heap w /\
      (closeError script = None ->
       (update this ctx record w).1 =
         inl (RecordError AdapterError.NON_QUERY
                "Expected updated row, but update query returned no row"))) /\
   (forall row rest, fetches script = FetchRow row :: rest ->
      trace (update this ctx record w).2 =
        issued ++ [EvNext rows; EvLoad row record; EvClose rows] /\
      (forall fields',
         load (mapper this) row (heap w !!! record) = inr fields' ->
         heap (update this ctx record w).2 = <[record := fields']> (heap w) /\
         (closeError script = None -> (update this ctx record w).1 = inr tt)))).
Proof.
  intros Hdb Hq rows. subst rows.
  split; intros Hf Hsql Hparams issued; subst issued; split.
  - intros Hz. unfold_calls. run.
    on_answer (closeError script); repeat split; auto; discriminate.
  - intros row rest Hrow. split.
    + unfold_calls. run.
      on_answer (load (mapper this) row (heap w !!! record));
        on_answer (closeError script); reflexivity.
    + intros fields' Hload. unfold_calls. run.
      on_answer (closeError script); split; auto; discriminate.
  - intros Hz. unfold_calls. run.
    on_answer (closeError script); repeat split; auto; discriminate.
  - intros row rest Hrow. split.
    + unfold_calls. run.
      on_answer (load (mapper this) row (heap w !!! record));
        on_answer (closeError script); reflexivity.
    + intros fields' Hload. unfold_calls. run.
      on_answer (closeError script); split; auto; discriminate.
Qed.

(** C5: when the statement source has no statement, [insert], [update] and
    [delete] fail with [MISSING_STATEMENT] after the one call that asked for
    the statement: no context lookup, no parameter extraction, no executor
    call, and the heap (so the record) and the cursors are as before. *)
Theorem missing_statement_fails_first (ctx : IContext) (record : loc)
    (w : World TRecord) :
  (getInsertSQL (sqlSource this) = None ->
   insert this ctx record w =
     (inl (RecordError AdapterError.MISSING_STATEMENT "INSERT SQL not defined"),
      {| trace := trace w ++ [EvGetInsertSQL];
         heap := heap w; cursors := cursors w |})) /\
  (getUpdateSQL (sqlSource this) = None ->
   update this ctx record w =
     (inl (RecordError AdapterError.MISSING_STATEMENT "UPDATE SQL not defined"),
      {| trace := trace w ++ [EvGetUpdateSQL];
         heap := heap w; cursors := cursors w |})) /\
  (getDeleteSQL (sqlSource this) = None ->
   delete this ctx record w =
     (inl (RecordError AdapterError.MISSING_STATEMENT "DELETE SQL not defined"),
      {| trace := trace w ++ [EvGetDeleteSQL];
         heap := heap w; cursors := cursors w |})).
Proof.
  repeat split; intros Hsql; unfold_calls; run; reflexivity.
Qed.

(** C9: with neither [generatedOnInsert] nor [generatedId], [insert] makes
    one [exec] call with the insert parameters spread, and nothing after
    it: no query, no cursor, no [load], no [setKey]; the heap is as
    before. *)
Theorem insert_plain_execs_once (ctx : IContext) (record : loc)
    (w : World TRecord) (sql : string) (db : DbApi) (params : list Value) :
  hasMappingFlag (flags (mapper this)) MappingFlags.generatedOnInsert = false ->
  hasMappingFlag (flags (mapper this)) MappingFlags.generatedId = false ->
  getInsertSQL (sqlSource this) = Some sql ->
  ctxDbApi ctx = Some db ->
  getInsertParams (mapper this) (heap w !!! record) = inr params ->
  insert this ctx record w =
    (match dbExec db sql params with Some e => inl e | None => inr tt end,
     {| trace := trace w ++
          [EvGetInsertSQL; EvRequireDbApi (ctxId ctx); EvGetInsertParams record;
           EvExec (dbId db) (ctxId ctx) sql params];
        heap := heap w; cursors := cursors w |}).
Proof.
  intros Hf1 Hf2 Hsql Hdb Hparams. unfold_calls. run.
  destruct (dbExec db sql params); reflexivity.
Qed.

(** C6: [selectOne] over zero rows returns [null] ([None]) and is not an
    error; over one or more rows it returns one record, made by [create]
    then [load] of the first row; it calls [next] once and closes the
    cursor with the later rows still pending. *)
Theorem selectOne_first_row_only (ctx : IContext) (sqlOrParams : SqlOrParams)
    (params : ParamMap) (w : World TRecord) (db : DbApi) (script : RowsScript) :
  ctxDbApi ctx = Some db ->
  let sql := effective_sql this sqlOrParams in
  let args := toParamArray (effective_params sqlOrParams params) in
  dbQuery db sql args = inr script ->
  closeError script = None ->
  let rows := fresh (dom (cursors w)) in
  let issued := trace w ++ resolve_events sqlOrParams ++
    [EvRequireDbApi (ctxId ctx); EvQuery (dbId db) (ctxId ctx) sql args] in
  (fetches script = [] ->
   selectOne this ctx sqlOrParams params w =
     (inr None,
      {| trace := issued ++ [EvNext rows; EvClose rows];
         heap := heap w;
         cursors := <[rows := {| pending := []; current := None;
                                 closeErr := None; closed := 1 |}]> (cursors w) |})) /\
  (forall row rest blank fields,
     fetches script = FetchRow row :: rest ->
     create (mapper this) = inr blank ->
     load (mapper this) row blank = inr fields ->
     let record := fresh (dom (heap w)) in
     selectOne this ctx sqlOrParams params w =
       (inr (Some record),
        {| trace := issued ++
             [EvNext rows; EvCreate record; EvLoad row record; EvClose rows];
           heap := <[record := fields]> (heap w);
           cursors := <[rows := {| pending := rest; current := Some row;
                                   closeErr := None; closed := 1 |}]> (cursors w) |})).
Proof.
  intros Hdb sql args Hq Hclose rows issued. subst sql args rows issued.
  split.
  - intros Hz. unfold selectOne, bind at 1. rewrite resolveSelect_run.
    unfold_calls. run. reflexivity.
  - intros row rest blank fields Hrow Hcreate Hload record. subst record.
    unfold selectOne, bind at 1. rewrite resolveSelect_run.
    unfold_calls. run. reflexivity.
Qed.

(** C8: called with a filter mapping and no SQL text, [selectOne] and the
    first [next] of [selectMany] ask the statement source for the select
    statement over the keys of the mapping, in enumeration order, and then
    query with that statement and the values of the mapping in the same
    order. *)
Theorem select_by_filter_mapping (ctx : IContext)
    (entries : list (string * Value)) (unused : ParamMap) (w : World TRecord)
    (db : DbApi) :
  ctxDbApi ctx = Some db ->
  let columns := map fst entries in
  let sql := getSelectSQL (sqlSource this) columns in
  let issued :=
    [EvGetSelectSQL columns; EvRequireDbApi (ctxId ctx);
     EvQuery (dbId db) (ctxId ctx) sql (map snd entries)] in
  (exists more,
     trace (selectOne this ctx (IsParams (Some entries)) unused w).2 =
       trace w ++ issued ++ more) /\
  (exists more,
     trace (gen_next this (selectMany ctx (IsParams (Some entries)) unused) w).2 =
       trace w ++ issued ++ more).
Proof.
  intros Hdb columns sql issued. subst columns sql issued.
  split.
  - unfold_calls. run.
    on_answer (dbQuery db (getSelectSQL (sqlSource this) (map fst entries))
                 (map snd entries)); [eexists; reflexivity|].
    on_answer (fetches r); [on_answer (closeError r); eexists; reflexivity|].
    on_answer f.
    + on_answer (create (mapper this)).
      { on_answer (closeError r); eexists; reflexivity. }
      on_answer (load (mapper this) row t);
        on_answer (closeError r); eexists; reflexivity.
    + on_answer (closeError r); eexists; reflexivity.
  - unfold selectMany, gen_next, selectMany_resume. unfold_calls. run.
    on_answer (dbQuery db (getSelectSQL (sqlSource this) (map fst entries))
                 (map snd entries)); [eexists; reflexivity|].
    on_answer (fetches r); [on_answer (closeError r); eexists; reflexivity|].
    on_answer f.
    + on_answer (create (mapper this)).
      { on_answer (closeError r); eexists; reflexivity. }
      on_answer (load (mapper this) row t); [on_answer (closeError r)|];
        eexists; reflexivity.
    + on_answer (closeError r); eexists; reflexivity.
Qed.

(** C10: the adapter object holds a statement source and a mapper only;
    each call takes the database API from its context.  With a context
    that carries none, every operation throws at the lookup, before any
    [query] or [exec]: on the write paths after the statement was asked for
    and found, and before the parameters are asked of the mapper; a
    missing statement is reported before the lookup is made. *)
Theorem executor_required_from_context (ctx : IContext) (record : loc)
    (sqlOrParams : SqlOrParams) (params : ParamMap) (w : World TRecord) :
  let logged evs :=
    {| trace := trace w ++ evs; heap := heap w; cursors := cursors w |} in
  (forall db, ctxDbApi ctx = Some db ->
     Context_require_getDbApi ctx w = (inr db, logged [EvRequireDbApi (ctxId ctx)])) /\
  (ctxDbApi ctx = None ->
   (forall sql, getInsertSQL (sqlSource this) = Some sql ->
      insert this ctx record w =
        (inl missing_item, logged [EvGetInsertSQL; EvRequireDbApi (ctxId ctx)])) /\
   (forall sql, getUpdateSQL (sqlSource this) = Some sql ->
      update this ctx record w =
        (inl missing_item, logged [EvGetUpdateSQL; EvRequireDbApi (ctxId ctx)])) /\
   (forall sql, getDeleteSQL (sqlSource this) = Some sql ->
      delete this ctx record w =
        (inl missing_item, logged [EvGetDeleteSQL; EvRequireDbApi (ctxId ctx)])) /\
   (getInsertSQL (sqlSource this) = None ->
      insert this ctx record w =
        (inl (RecordError AdapterError.MISSING_STATEMENT "INSERT SQL not defined"),
         logged [EvGetInsertSQL])) /\
   (getUpdateSQL (sqlSource this) = None ->
      update this ctx record w =
        (inl (RecordError AdapterError.MISSING_STATEMENT "UPDATE SQL not defined"),
         logged [EvGetUpdateSQL])) /\
   (getDeleteSQL (sqlSource this) = None ->
      delete this ctx record w =
        (inl (RecordError AdapterError.MISSING_STATEMENT "DELETE SQL not defined"),
         logged [EvGetDeleteSQL])) /\
   selectOne this ctx sqlOrParams params w =
     (inl missing_item,
      logged (resolve_events sqlOrParams ++ [EvRequireDbApi (ctxId ctx)])) /\
   gen_next this (selectMany ctx sqlOrParams params) w =
     (Completed, inl missing_item,
      logged (resolve_events sqlOrParams ++ [EvRequireDbApi (ctxId ctx)]))).
Proof.
  intros logged. subst logged. split.
  - intros db Hdb. unfold_calls. run. reflexivity.
  - intros Hdb. unfold missing_item.
    repeat split; try (intros sql Hsql); try (intros Hsql);
      try (unfold_calls; run; reflexivity).
    + unfold selectOne, bind at 1. rewrite resolveSelect_run.
      unfold_calls. run. reflexivity.
    + unfold selectMany, gen_next, selectMany_open, bind at 1.
      rewrite resolveSelect_run. unfold_calls. run. reflexivity.
Qed.

(** *** Cursors are closed exactly once *)

Local Abbreviation keeps_cursors := (@keeps_cursors TRecord _).
Local Abbreviation on_cursor := (@on_cursor TRecord _).
Local Abbreviation releases := (@releases TRecord _).

Lemma released_same (w w' : World TRecord) :
  cursors w' = cursors w -> cursors_released w w'.
Proof.
  intros Heq c. rewrite Heq. destruct (cursors w !! c) eqn:Hc; [reflexivity|].
  intros cur Hcur. congruence.
Qed.

Lemma released_one (w0 w' : World TRecord) (base : gmap nat Rows) (rows : nat)
    (cur : Rows) :
  cursors w0 !! rows = None ->
  (forall c, c <> rows -> base !! c = cursors w0 !! c) ->
  cursors w' = <[rows := cur]> base ->
  closed cur = 1 ->
  cursors_released w0 w'.
Proof.
  intros Hnew Hbase Heq Hclosed c. rewrite Heq.
  destruct (decide (c = rows)) as [->|Hne].
  - rewrite Hnew, lookup_insert_eq. intros cur' [= <-]. exact Hclosed.
  - rewrite lookup_insert_ne by congruence. rewrite (Hbase c Hne).
    destruct (cursors w0 !! c); [reflexivity|discriminate].
Qed.

Lemma fresh_cursor (w : World TRecord) :
  cursors w !! fresh (dom (cursors w)) = None.
Proof. apply not_elem_of_dom, is_fresh. Qed.

Lemma released_fresh (w w' : World TRecord) (cur : Rows) :
  cursors w' = <[fresh (dom (cursors w)) := cur]> (cursors w) ->
  closed cur = 1 ->
  cursors_released w w'.
Proof.
  intros Heq Hclosed.
  eapply released_one; eauto using fresh_cursor.
Qed.

Lemma keeps_ret {A} (a : A) : keeps_cursors (ret a).
Proof. intros w; reflexivity. Qed.

Lemma keeps_throw {A} (e : Error) : keeps_cursors (throw (A := A) e).
Proof. intros w; reflexivity. Qed.

Lemma keeps_lift {A} (r : Error + A) : keeps_cursors (lift r).
Proof. intros w; reflexivity. Qed.

Lemma keeps_emit (e : Event) : keeps_cursors (emit e).
Proof. intros w; reflexivity. Qed.

Lemma keeps_set_heap (record : loc) (fields : TRecord) :
  keeps_cursors (set_heap record fields).
Proof. intros w; reflexivity. Qed.

Lemma keeps_get_fields (record : loc) : keeps_cursors (get_fields record).
Proof. intros w; reflexivity. Qed.

Lemma keeps_bind {A B} (m : M A) (k : A -> M B) :
  keeps_cursors m -> (forall a, keeps_cursors (k a)) -> keeps_cursors (bind m k).
Proof.
  intros Hm Hk w. unfold bind. specialize (Hm w).
  destruct (m w) as [[e|a] w1]; simpl in *; [assumption|].
  rewrite Hk. assumption.
Qed.

#[local] Hint Resolve keeps_ret keeps_throw keeps_lift keeps_emit keeps_set_heap
  keeps_get_fields keeps_bind : cursors.

Lemma keeps_getInsertSQL : keeps_cursors (sqlSource_getInsertSQL this).
Proof. unfold sqlSource_getInsertSQL; auto with cursors. Qed.

Lemma keeps_getUpdateSQL : keeps_cursors (sqlSource_getUpdateSQL this).
Proof. unfold sqlSource_getUpdateSQL; auto with cursors. Qed.

Lemma keeps_getSelectSQL columns :
  keeps_cursors (sqlSource_getSelectSQL this columns).
Proof. unfold sqlSource_getSelectSQL; auto with cursors. Qed.

Lemma keeps_require ctx : keeps_cursors (Context_require_getDbApi ctx).
Proof.
  unfold Context_require_getDbApi. destruct (ctxDbApi ctx); auto with cursors.
Qed.

Lemma keeps_getInsertParams record :
  keeps_cursors (mapper_getInsertParams this record).
Proof. unfold mapper_getInsertParams; auto with cursors. Qed.

Lemma keeps_getUpdateParams record :
  keeps_cursors (mapper_getUpdateParams this record).
Proof. unfold mapper_getUpdateParams; auto with cursors. Qed.

Lemma keeps_create : keeps_cursors (mapper_create this).
Proof.
  intros w. unfold mapper_create, bind, emit, lift, set_heap, ret. simpl.
  destruct (create (mapper this)); reflexivity.
Qed.

Lemma keeps_load row record : keeps_cursors (mapper_load this row record).
Proof. unfold mapper_load; auto with cursors. Qed.

Lemma keeps_setKey record key : keeps_cursors (mapper_setKey this record key).
Proof. unfold mapper_setKey; auto with cursors. Qed.

Lemma keeps_exec db ctx sql args : keeps_cursors (db_exec db ctx sql args).
Proof. unfold db_exec. destruct (dbExec db sql args); auto with cursors. Qed.

#[local] Hint Resolve keeps_getInsertSQL keeps_getUpdateSQL keeps_getSelectSQL
  keeps_require keeps_getInsertParams keeps_getUpdateParams keeps_create
  keeps_load keeps_setKey keeps_exec : cursors.

Lemma keeps_toRecord row : keeps_cursors (toRecord this row).
Proof. unfold toRecord; auto with cursors. Qed.

Lemma keeps_resolveSelect sqlOrParams params :
  keeps_cursors (resolveSelect this sqlOrParams params).
Proof. unfold resolveSelect. destruct sqlOrParams; auto with cursors. Qed.

#[local] Hint Resolve keeps_toRecord keeps_resolveSelect : cursors.

Lemma on_cursor_keeps {A} (rows : nat) (m : M A) :
  keeps_cursors m -> on_cursor rows 0 m.
Proof.
  intros Hm w cur Hcur. exists cur. rewrite Hm, insert_id by assumption.
  split; reflexivity.
Qed.

Lemma on_cursor_bind {A B} (rows : nat) (m : M A) (k : A -> M B) :
  on_cursor rows 0 m -> (forall a, on_cursor rows 0 (k a)) ->
  on_cursor rows 0 (bind m k).
Proof.
  intros Hm Hk w cur Hcur. unfold bind.
  destruct (Hm w cur Hcur) as (cur1 & Hw1 & Hc1).
  destruct (m w) as [[e|a] w1]; simpl in *; [eauto|].
  destruct (Hk a w1 cur1) as (cur2 & Hw2 & Hc2).
  { rewrite Hw1. apply lookup_insert_eq. }
  exists cur2. rewrite Hw2, Hw1, insert_insert_eq. split; [reflexivity|lia].
Qed.

Lemma on_cursor_next (rows : nat) : on_cursor rows 0 (rows_next rows).
Proof.
  intros w cur Hcur. unfold_calls. run.
  destruct (pending cur) as [|[row|e] rest]; simpl; eexists; split;
    try reflexivity.
  rewrite insert_id; [reflexivity|assumption].
Qed.

Lemma on_cursor_row (rows : nat) : on_cursor rows 0 (rows_row rows).
Proof.
  intros w cur Hcur. unfold_calls. run. exists cur.
  destruct (current cur); simpl; rewrite insert_id by assumption; auto.
Qed.

Lemma on_cursor_close (rows : nat) : on_cursor rows 1 (rows_close rows).
Proof.
  intros w cur Hcur. unfold_calls. run.
  destruct (closeErr cur); simpl; eexists; split; reflexivity.
Qed.

Lemma on_cursor_try_finally {A} (rows : nat) (body : M A) (fin : M unit) :
  on_cursor rows 0 body -> on_cursor rows 1 fin ->
  on_cursor rows 1 (try_finally body fin).
Proof.
  intros Hbody Hfin w cur Hcur. unfold try_finally.
  destruct (Hbody w cur Hcur) as (cur1 & Hw1 & Hc1).
  destruct (body w) as [r w1]; simpl in *.
  destruct (Hfin w1 cur1) as (cur2 & Hw2 & Hc2).
  { rewrite Hw1. apply lookup_insert_eq. }
  exists cur2. split; [|lia].
  destruct (fin w1) as [[e|u] w2]; simpl in *;
    rewrite Hw2, Hw1, insert_insert_eq; reflexivity.
Qed.

Lemma releases_keeps {A} (m : M A) : keeps_cursors m -> releases m.
Proof. intros Hm w. apply released_same, Hm. Qed.

Lemma releases_bind {A B} (m : M A) (k : A -> M B) :
  keeps_cursors m -> (forall a, releases (k a)) -> releases (bind m k).
Proof.
  intros Hm Hk w. unfold bind. specialize (Hm w).
  destruct (m w) as [[e|a] w1]; simpl in *.
  - apply released_same. assumption.
  - intros c. specialize (Hk a w1 c). rewrite Hm in Hk. exact Hk.
Qed.

(** What [query] does to the cursors: nothing when it throws, else it adds
    one open cursor under a fresh name. *)
Lemma db_query_opens db ctx sql args (w : World TRecord) :
  match db_query db ctx sql args w with
  | (inl _, w1) => cursors w1 = cursors w
  | (inr rows, w1) =>
      rows = fresh (dom (cursors w)) /\
      exists cur, cursors w1 = <[rows := cur]> (cursors w) /\ closed cur = 0
  end.
Proof.
  unfold_calls. simpl. destruct (dbQuery db sql args); simpl; [reflexivity|].
  split; [reflexivity|]. eexists; split; reflexivity.
Qed.

Lemma releases_query {A} db ctx sql args (k : nat -> M A) :
  (forall rows, on_cursor rows 1 (k rows)) ->
  releases (bind (db_query db ctx sql args) k).
Proof.
  intros Hk w. unfold bind.
  pose proof (db_query_opens db ctx sql args w) as Hq.
  destruct (db_query db ctx sql args w) as [[e|rows] w1]; simpl.
  - apply released_same. assumption.
  - destruct Hq as (-> & cur & Hw1 & Hc).
    destruct (Hk (fresh (dom (cursors w))) w1 cur) as (cur' & Hw' & Hc').
    { rewrite Hw1. apply lookup_insert_eq. }
    eapply released_fresh; [rewrite Hw', Hw1, insert_insert_eq; reflexivity|lia].
Qed.

(** The guarded body of the write paths: advance, then hand the row on. *)
Lemma on_cursor_guarded (rows : nat) (e : Error)
    (use : list Value -> M unit) :
  (forall row, keeps_cursors (use row)) ->
  on_cursor rows 1
    (try_finally
       (bind (rows_next rows) (fun has =>
          if negb has then throw e
          else bind (rows_row rows) (fun row => use row)))
       (rows_close rows)).
Proof.
  intros Huse. apply on_cursor_try_finally; [|apply on_cursor_close].
  apply on_cursor_bind; [apply on_cursor_next|]. intros [|]; simpl.
  - apply on_cursor_bind; [apply on_cursor_row|].
    intros row. apply on_cursor_keeps, Huse.
  - apply on_cursor_keeps, keeps_throw.
Qed.

Lemma insert_releases (ctx : IContext) (record : loc) :
  releases (insert this ctx record).
Proof.
  unfold insert. apply releases_bind; [auto with cursors|].
  intros [sql|]; [|apply releases_keeps; auto with cursors].
  apply releases_bind; [auto with cursors|]. intros db.
  apply releases_bind; [auto with cursors|]. intros params.
  destruct (hasMappingFlag _ MappingFlags.generatedOnInsert);
    [|destruct (hasMappingFlag _ MappingFlags.generatedId)].
  - apply releases_query. intros rows.
    apply on_cursor_guarded. auto with cursors.
  - apply releases_query. intros rows.
    apply on_cursor_guarded. auto with cursors.
  - apply releases_keeps. auto with cursors.
Qed.

Lemma update_releases (ctx : IContext) (record : loc) :
  releases (update this ctx record).
Proof.
  unfold update. apply releases_bind; [auto with cursors|].
  intros [sql|]; [|apply releases_keeps; auto with cursors].
  apply releases_bind; [auto with cursors|]. intros db.
  apply releases_bind; [auto with cursors|]. intros params.
  destruct (hasMappingFlag _ MappingFlags.generatedOnUpdate).
  - apply releases_query. intros rows.
    apply on_cursor_guarded. auto with cursors.
  - apply releases_keeps. auto with cursors.
Qed.

Lemma selectOne_releases (ctx : IContext) (sqlOrParams : SqlOrParams)
    (params : ParamMap) :
  releases (selectOne this ctx sqlOrParams params).
Proof.
  unfold selectOne. apply releases_bind; [auto with cursors|].
  intros [sql ps]. apply releases_bind; [auto with cursors|]. intros db.
  apply releases_query. intros rows.
  apply on_cursor_try_finally; [|apply on_cursor_close].
  apply on_cursor_bind; [apply on_cursor_next|]. intros [|]; simpl.
  - apply on_cursor_bind; [apply on_cursor_row|]. intros row.
    apply on_cursor_keeps. auto with cursors.
  - apply on_cursor_keeps. auto with cursors.
Qed.

(** One run of the loop of [selectMany] on its open cursor: it suspends
    at the [yield] with the cursor still open, or completes with the cursor
    closed once. *)
Lemma selectMany_resume_cursor (rows : nat) (w : World TRecord) (cur : Rows) :
  cursors w !! rows = Some cur ->
  closed cur = 0 ->
  forall g r w', selectMany_resume this rows w = (g, r, w') ->
  exists cur',
    cursors w' = <[rows := cur']> (cursors w) /\
    ((g = SuspendedYield rows /\ closed cur' = 0 /\ exists v, r = inr (Yielded v)) \/
     (g = Completed /\ closed cur' = 1 /\ forall v, r <> inr (Yielded v))).
Proof.
  intros Hcur Hopen g r w'. unfold selectMany_resume.
  assert (on_cursor rows 0 (selectMany_loop this rows)) as Hloop.
  { unfold selectMany_loop. apply on_cursor_bind; [apply on_cursor_next|].
    intros [|]; [|apply on_cursor_keeps; auto with cursors].
    apply on_cursor_bind; [apply on_cursor_row|]. intros row.
    apply on_cursor_keeps. auto with cursors. }
  destruct (Hloop w cur Hcur) as (cur1 & Hw1 & Hc1).
  destruct (selectMany_loop this rows w) as [r1 w1]; simpl in Hw1.
  assert (forall r0 : Error + option loc,
    (forall v, r0 <> inr (Some v)) ->
    (let '(r', w2) := try_finally (bind (lift r0) (fun _ => ret Done))
                        (rows_close rows) w1 in
     (Completed, r', w2)) = (g, r, w') ->
    exists cur',
      cursors w' = <[rows := cur']> (cursors w) /\
      ((g = SuspendedYield rows /\ closed cur' = 0 /\
        exists v, r = inr (Yielded v)) \/
       (g = Completed /\ closed cur' = 1 /\ forall v, r <> inr (Yielded v))))
    as Hleave.
  { intros r0 Hr0 Heq.
    destruct (on_cursor_close rows w1 cur1) as (cur2 & Hw2 & Hc2).
    { rewrite Hw1. apply lookup_insert_eq. }
    unfold try_finally, bind, lift, ret in Heq.
    destruct (rows_close rows w1) as [[e|u] w2] eqn:Hclose; simpl in Hw2;
      destruct r0 as [e0|[v|]]; simpl in Heq; rewrite Hclose in Heq;
      inversion Heq; subst;
      try (exfalso; eapply Hr0; reflexivity);
      (exists cur2; split;
        [rewrite Hw2, Hw1, insert_insert_eq; reflexivity|];
        right; repeat split; [lia|discriminate]). }
  destruct r1 as [e|[v|]].
  - apply Hleave. discriminate.
  - intros [= <- <- <-]. exists cur1. split; [assumption|].
    left. repeat split; [lia|eauto].
  - apply Hleave. discriminate.
Qed.

Lemma selectMany_open_cursor ctx sqlOrParams params (w : World TRecord) :
  match selectMany_open this ctx sqlOrParams params w with
  | (inl _, w1) => cursors w1 = cursors w
  | (inr rows, w1) =>
      cursors w !! rows = None /\
      exists cur, cursors w1 = <[rows := cur]> (cursors w) /\ closed cur = 0
  end.
Proof.
  unfold selectMany_open, bind at 1.
  pose proof (keeps_resolveSelect sqlOrParams params w) as H1.
  destruct (resolveSelect this sqlOrParams params w) as [[e|[sql ps]] w1];
    simpl in H1; [assumption|].
  unfold bind at 1. pose proof (keeps_require ctx w1) as H2.
  destruct (Context_require_getDbApi ctx w1) as [[e|db] w2]; simpl in H2;
    [congruence|].
  pose proof (db_query_opens db ctx sql (toParamArray ps) w2) as H3.
  destruct (db_query db ctx sql (toParamArray ps) w2) as [[e|rows] w3].
  - congruence.
  - destruct H3 as (-> & cur & Hw3 & Hc). rewrite H2, H1 in *.
    split; [apply fresh_cursor|]. exists cur. split; assumption.
Qed.

(** Every request keeps the account of the generator; an answer other
    than a record leaves the generator completed. *)
Lemma gen_step_cursors (w0 : World TRecord) (rq : Request) (g : Generator)
    (w : World TRecord) :
  gen_cursors w0 g w ->
  forall g' r w', gen_step this rq g w = (g', r, w') ->
  gen_cursors w0 g' w' /\
  ((exists v, r = inr (Yielded v)) \/ g' = Completed).
Proof.
  intros Hinv g' r w' Hstep.
  assert (forall rows wi cur,
    cursors w0 !! rows = None ->
    cursors wi !! rows = Some cur -> closed cur = 0 ->
    (forall c, c <> rows -> cursors wi !! c = cursors w0 !! c) ->
    selectMany_resume this rows wi = (g', r, w') ->
    gen_cursors w0 g' w' /\ ((exists v, r = inr (Yielded v)) \/ g' = Completed))
    as Hresume.
  { intros rows wi cur Hnew Hcur Hopen Hothers Hres.
    destruct (selectMany_resume_cursor rows wi cur Hcur Hopen _ _ _ Hres)
      as (cur' & Hw' & [(-> & Hc & Hv)|(-> & Hc & Hv)]).
    - split; [|left; assumption]. simpl. split; [assumption|]. split.
      + exists cur'. rewrite Hw', lookup_insert_eq. auto.
      + intros c Hc'. rewrite Hw', lookup_insert_ne by congruence. auto.
    - split; [|right; reflexivity]. simpl.
      eapply released_one; eauto. }
  assert (forall rows (m : M IteratorResult),
    cursors w0 !! rows = None ->
    (exists cur, cursors w !! rows = Some cur /\ closed cur = 0) ->
    (forall c, c <> rows -> cursors w !! c = cursors w0 !! c) ->
    (let '(r0, w1) := try_finally m (rows_close rows) w in (Completed, r0, w1))
      = (g', r, w') ->
    keeps_cursors m ->
    gen_cursors w0 g' w' /\ ((exists v, r = inr (Yielded v)) \/ g' = Completed))
    as Hleave.
  { intros rows m Hnew (cur & Hcur & Hopen) Hothers Heq Hm.
    destruct (on_cursor_try_finally rows m (rows_close rows)
                (on_cursor_keeps rows m Hm) (on_cursor_close rows) w cur Hcur)
      as (cur' & Hw' & Hc').
    destruct (try_finally m (rows_close rows) w) as [r0 w1].
    inversion Heq; subst. split; [|right; reflexivity]. simpl in *.
    eapply released_one; eauto. lia. }
  destruct rq as [| |e]; destruct g as [ctx sp ps|rows|]; simpl in Hstep, Hinv.
  - pose proof (selectMany_open_cursor ctx sp ps w) as Hopen.
    destruct (selectMany_open this ctx sp ps w) as [[e|rows] w1].
    + inversion Hstep; subst. split; [|right; reflexivity]. simpl.
      apply released_same. congruence.
    + destruct Hopen as (Hnew & cur & Hw1 & Hc). rewrite Hinv in *.
      apply (Hresume rows w1 cur); auto.
      * rewrite Hw1. apply lookup_insert_eq.
      * intros c Hne. rewrite Hw1. apply lookup_insert_ne. congruence.
  - destruct Hinv as (Hnew & (cur & Hcur & Hc) & Hothers).
    apply (Hresume rows w cur); auto.
  - inversion Hstep; subst. split; [assumption|right; reflexivity].
  - inversion Hstep; subst. split; [|right; reflexivity]. simpl.
    apply released_same. assumption.
  - destruct Hinv as (Hnew & Hcur & Hothers).
    apply (Hleave rows (ret Done)); auto with cursors.
  - inversion Hstep; subst. split; [assumption|right; reflexivity].
  - inversion Hstep; subst. split; [|right; reflexivity]. simpl.
    apply released_same. assumption.
  - destruct Hinv as (Hnew & Hcur & Hothers).
    apply (Hleave rows (throw e)); auto with cursors.
  - inversion Hstep; subst. split; [assumption|right; reflexivity].
Qed.

Lemma gen_run_cursors (w0 : World TRecord) (rqs : list Request) :
  forall g w, gen_cursors w0 g w ->
  gen_cursors w0 (gen_run this rqs g w).1 (gen_run this rqs g w).2.
Proof.
  induction rqs as [|rq rqs IH]; intros g w Hinv; simpl; [assumption|].
  destruct (gen_step this rq g w) as [[g1 r] w1] eqn:Hstep.
  apply IH. eapply gen_step_cursors; eauto.
Qed.

Lemma for_await_cursors (w0 : World TRecord) (k : nat) :
  forall g w, gen_cursors w0 g w ->
  (for_await this k g w).1.2 = Completed /\
  cursors_released w0 (for_await this k g w).2.
Proof.
  induction k as [|k IH]; intros g w Hinv; simpl;
    destruct (gen_next this g w) as [[g1 r] w1] eqn:Hnext;
    destruct (gen_step_cursors w0 ReqNext g w Hinv g1 r w1 Hnext)
      as [Hinv1 Hdone];
    destruct r as [e|[v|]];
    try (destruct Hdone as [[v' [=]]| ->]; simpl; split;
         [reflexivity|exact Hinv1]).
  - destruct (gen_return g1 w1) as [[g2 r2] w2] eqn:Hret.
    destruct (gen_step_cursors w0 ReqReturn g1 w1 Hinv1 g2 r2 w2 Hret)
      as [Hinv2 Hdone2].
    assert (g2 = Completed) as ->.
    { destruct g1; simpl in Hret;
        try destruct (try_finally _ _ _); inversion Hret; reflexivity. }
    destruct r2; simpl; split; auto.
  - specialize (IH g1 w1 Hinv1).
    destruct (for_await this k g1 w1) as [[[rs err] g2] w2]. exact IH.
Qed.


(** *** A full traversal of [selectMany] *)

Lemma selectMany_resume_row (rows : nat) (w : World TRecord) (cur : Rows)
    (row : list Value) (rest : list Fetch) (blank fields : TRecord) :
  cursors w !! rows = Some cur ->
  pending cur = FetchRow row :: rest ->
  create (mapper this) = inr blank ->
  load (mapper this) row blank = inr fields ->
  selectMany_resume this rows w =
    (SuspendedYield rows, inr (Yielded (fresh (dom (heap w)))),
     {| trace := trace w ++
          [EvNext rows; EvCreate (fresh (dom (heap w)));
           EvLoad row (fresh (dom (heap w)))];
        heap := <[fresh (dom (heap w)) := fields]> (heap w);
        cursors := <[rows := {| pending := rest; current := Some row;
                                closeErr := closeErr cur;
                                closed := closed cur |}]> (cursors w) |}).
Proof.
  intros Hcur Hpending Hcreate Hload.
  unfold selectMany_resume. unfold_calls. run. reflexivity.
Qed.

Lemma selectMany_resume_end (rows : nat) (w : World TRecord) (cur : Rows) :
  cursors w !! rows = Some cur ->
  pending cur = [] ->
  closeErr cur = None ->
  selectMany_resume this rows w =
    (Completed, inr Done,
     {| trace := trace w ++ [EvNext rows; EvClose rows];
        heap := heap w;
        cursors := <[rows := {| pending := []; current := current cur;
                                closeErr := None;
                                closed := S (closed cur) |}]> (cursors w) |}).
Proof.
  intros Hcur Hpending Hclose.
  unfold selectMany_resume. unfold_calls. run. reflexivity.
Qed.

Lemma selectMany_open_run (ctx : IContext) (sqlOrParams : SqlOrParams)
    (params : ParamMap) (w : World TRecord) (db : DbApi) (script : RowsScript) :
  ctxDbApi ctx = Some db ->
  dbQuery db (effective_sql this sqlOrParams)
    (toParamArray (effective_params sqlOrParams params)) = inr script ->
  selectMany_open this ctx sqlOrParams params w =
    (inr (fresh (dom (cursors w))),
     {| trace := trace w ++ query_events this ctx db sqlOrParams params;
        heap := heap w;
        cursors := <[fresh (dom (cursors w)) :=
                       {| pending := fetches script; current := None;
                          closeErr := closeError script; closed := 0 |}]>
                     (cursors w) |}).
Proof.
  intros Hdb Hq. unfold selectMany_open, bind at 1. rewrite resolveSelect_run.
  unfold query_events. unfold_calls. run. reflexivity.
Qed.

Lemma for_await_started (k : nat) ctx sqlOrParams params (w w1 : World TRecord)
    (rows : nat) :
  selectMany_open this ctx sqlOrParams params w = (inr rows, w1) ->
  for_await this k (SuspendedStart ctx sqlOrParams params) w =
  for_await this k (SuspendedYield rows) w1.
Proof. intros Hopen. destruct k; simpl; rewrite Hopen; reflexivity. Qed.

Lemma for_await_completed (k : nat) (w : World TRecord) :
  for_await this k Completed w = (([], None), Completed, w).
Proof. destruct k; reflexivity. Qed.

Lemma for_await_drains (c : nat) (blank : TRecord)
    (loaded : list Value -> TRecord) :
  create (mapper this) = inr blank ->
  forall (data : list (list Value)) (k : nat) (w : World TRecord) (cur : Rows),
    (forall row, row ∈ data -> load (mapper this) row blank = inr (loaded row)) ->
    length data <= k ->
    cursors w !! c = Some cur ->
    pending cur = map FetchRow data ->
    closeErr cur = None ->
    exists records w' cur',
      for_await this k (SuspendedYield c) w = ((records, None), Completed, w') /\
      Forall2 (fun r row => heap w' !! r = Some (loaded row)) records data /\
      NoDup records /\
      (forall r, r ∈ records -> heap w !! r = None) /\
      (forall l, l ∈ dom (heap w) -> heap w' !! l = heap w !! l) /\
      trace w' = trace w ++ traversal_events c records data ++
                 [EvNext c; EvClose c] /\
      cursors w' = <[c := cur']> (cursors w) /\
      closed cur' = S (closed cur).
Proof.
  intros Hcreate data.
  induction data as [|row data IH]; intros k w cur Hload Hk Hcur Hpending Hclose.
  - pose proof (selectMany_resume_end c w cur Hcur Hpending Hclose) as Hend.
    eexists [], _, _. split.
    { destruct k; cbn [for_await gen_next]; rewrite Hend; reflexivity. }
    simpl. repeat split; auto using NoDup_nil_2.
    intros r Hr. inversion Hr.
  - destruct k as [|k]; [simpl in Hk; lia|].
    simpl in Hpending.
    pose proof (selectMany_resume_row c w cur row (map FetchRow data) blank
                  (loaded row) Hcur Hpending Hcreate
                  (Hload row (list_elem_of_here _ _))) as Hstep.
    set (r := fresh (dom (heap w))) in *.
    assert (heap w !! r = None) as Hfresh
      by (apply not_elem_of_dom, is_fresh).
    match type of Hstep with _ = (_, _, ?x) => set (w1 := x) in * end.
    destruct (IH k w1 {| pending := map FetchRow data; current := Some row;
                         closeErr := closeErr cur; closed := closed cur |})
      as (records & w' & cur' & Hrun & Hall & Hnodup & Hnew & Hold & Htrace
          & Hcursors & Hclosed).
    { intros row' Hrow'. apply Hload. apply list_elem_of_further, Hrow'. }
    { simpl in Hk. lia. }
    { apply lookup_insert_eq. }
    { reflexivity. }
    { exact Hclose. }
    assert (r ∉ records) as Hnotin.
    { intros Hin. specialize (Hnew r Hin). simpl in Hnew.
      rewrite lookup_insert_eq in Hnew. discriminate. }
    exists (r :: records), w', cur'. split.
    { cbn [for_await gen_next]. rewrite Hstep, Hrun. reflexivity. }
    split.
    { constructor; [|exact Hall].
      rewrite Hold; simpl; [apply lookup_insert_eq|].
      rewrite dom_insert_L. set_solver. }
    split; [apply NoDup_cons_2; assumption|].
    split.
    { intros r' [->|Hin]%elem_of_cons; [assumption|].
      specialize (Hnew r' Hin). simpl in Hnew.
      apply lookup_insert_None in Hnew. tauto. }
    split.
    { intros l Hl. rewrite Hold; simpl.
      - apply lookup_insert_ne. intros <-.
        apply not_elem_of_dom in Hfresh. contradiction.
      - rewrite dom_insert_L. set_solver. }
    split.
    { rewrite Htrace. simpl. rewrite <- app_assoc. reflexivity. }
    split; [|exact Hclosed].
    rewrite Hcursors. simpl. apply insert_insert_eq.
Qed.

(** One call of [selectMany], traversed to its end. *)
Lemma selectMany_traversal (ctx : IContext) (sqlOrParams : SqlOrParams)
    (params : ParamMap) (db : DbApi) (script : RowsScript)
    (data : list (list Value)) (blank : TRecord)
    (loaded : list Value -> TRecord) (k : nat) :
  ctxDbApi ctx = Some db ->
  dbQuery db (effective_sql this sqlOrParams)
    (toParamArray (effective_params sqlOrParams params)) = inr script ->
  fetches script = map FetchRow data ->
  closeError script = None ->
  create (mapper this) = inr blank ->
  (forall row, row ∈ data -> load (mapper this) row blank = inr (loaded row)) ->
  length data <= k ->
  forall w : World TRecord,
  exists records w' cur',
    for_await this k (selectMany ctx sqlOrParams params) w =
      ((records, None), Completed, w') /\
    Forall2 (fun r row => heap w' !! r = Some (loaded row)) records data /\
    NoDup records /\
    (forall r, r ∈ records -> heap w !! r = None) /\
    trace w' = trace w ++ query_events this ctx db sqlOrParams params ++
               traversal_events (fresh (dom (cursors w))) records data ++
               [EvNext (fresh (dom (cursors w)));
                EvClose (fresh (dom (cursors w)))] /\
    cursors w' = <[fresh (dom (cursors w)) := cur']> (cursors w) /\
    closed cur' = 1.
Proof.
  intros Hdb Hq Hfetches Hclose Hcreate Hload Hk w.
  pose proof (selectMany_open_run ctx sqlOrParams params w db script Hdb Hq)
    as Hopen.
  set (c := fresh (dom (cursors w))) in *.
  match type of Hopen with _ = (_, ?x) => set (w1 := x) in * end.
  destruct (for_await_drains c blank loaded Hcreate data k w1
              {| pending := fetches script; current := None;
                 closeErr := closeError script; closed := 0 |})
    as (records & w' & cur' & Hrun & Hall & Hnodup & Hnew & Hold & Htrace
        & Hcursors & Hclosed); auto.
  { apply lookup_insert_eq. }
  exists records, w', cur'. split.
  { unfold selectMany. rewrite (for_await_started k _ _ _ _ _ _ Hopen).
    exact Hrun. }
  repeat split; auto.
  - rewrite Htrace. simpl. rewrite <- app_assoc. reflexivity.
  - rewrite Hcursors. simpl. apply insert_insert_eq.
Qed.

(** C7: over a result set of N rows, a traversal of [selectMany] takes N
    records, one per row in cursor order; each is a new object (made by its
    own [create], then [load] of its row), distinct from the others and
    from every object there was.  The generator is then completed: asked
    again it yields nothing and issues nothing.  A second call runs its own
    query on its own cursor and makes its own records. *)
Theorem selectMany_yields_each_row (ctx : IContext) (sqlOrParams : SqlOrParams)
    (params : ParamMap) (db : DbApi) (script : RowsScript)
    (data : list (list Value)) (blank : TRecord)
    (loaded : list Value -> TRecord) (k : nat) (w : World TRecord) :
  ctxDbApi ctx = Some db ->
  dbQuery db (effective_sql this sqlOrParams)
    (toParamArray (effective_params sqlOrParams params)) = inr script ->
  fetches script = map FetchRow data ->
  closeError script = None ->
  create (mapper this) = inr blank ->
  (forall row, row ∈ data -> load (mapper this) row blank = inr (loaded row)) ->
  length data <= k ->
  let issued := query_events this ctx db sqlOrParams params in
  let c1 := fresh (dom (cursors w)) in
  exists records w1,
    for_await this k (selectMany ctx sqlOrParams params) w =
      ((records, None), Completed, w1) /\
    length records = length data /\
    Forall2 (fun r row => heap w1 !! r = Some (loaded row)) records data /\
    NoDup records /\
    (forall r, r ∈ records -> heap w !! r = None) /\
    trace w1 = trace w ++ issued ++ traversal_events c1 records data ++
               [EvNext c1; EvClose c1] /\
    for_await this k Completed w1 = (([], None), Completed, w1) /\
    let c2 := fresh (dom (cursors w1)) in
    exists records' w2,
      for_await this k (selectMany ctx sqlOrParams params) w1 =
        ((records', None), Completed, w2) /\
      length records' = length data /\
      Forall2 (fun r row => heap w2 !! r = Some (loaded row)) records' data /\
      (forall r, r ∈ records' -> r ∉ records) /\
      c2 <> c1 /\
      trace w2 = trace w1 ++ issued ++ traversal_events c2 records' data ++
                 [EvNext c2; EvClose c2].
Proof.
  intros Hdb Hq Hfetches Hclose Hcreate Hload Hk issued c1. subst issued c1.
  destruct (selectMany_traversal ctx sqlOrParams params db script data blank
              loaded k Hdb Hq Hfetches Hclose Hcreate Hload Hk w)
    as (records & w1 & cur1 & Hrun & Hall & Hnodup & Hnew & Htrace
        & Hcursors & Hclosed).
  destruct (selectMany_traversal ctx sqlOrParams params db script data blank
              loaded k Hdb Hq Hfetches Hclose Hcreate Hload Hk w1)
    as (records' & w2 & cur2 & Hrun' & Hall' & Hnodup' & Hnew' & Htrace'
        & Hcursors' & Hclosed').
  exists records, w1.
  split; [exact Hrun|].
  split; [eapply Forall2_length; exact Hall|].
  split; [exact Hall|].
  split; [exact Hnodup|].
  split; [exact Hnew|].
  split; [exact Htrace|].
  split; [apply for_await_completed|].
  exists records', w2.
  split; [exact Hrun'|].
  split; [eapply Forall2_length; exact Hall'|].
  split; [exact Hall'|].
  split.
  { intros r Hr' Hr. specialize (Hnew' r Hr').
    apply list_elem_of_lookup in Hr as [i Hi].
    destruct (Forall2_lookup_l _ _ _ _ _ Hall Hi) as (row & _ & Hsome).
    congruence. }
  split; [|exact Htrace'].
  intros Heq.
  pose proof (is_fresh (dom (cursors w1))) as Hf. rewrite Heq in Hf.
  apply Hf. rewrite Hcursors, dom_insert_L. set_solver.
Qed.

End Properties.

(** ** The theorems at the sample instance *)

Import Sample.

Lemma delete_passes_params_as_one_argument_witness :
  delete (adapter MappingFlags.none) (sampleCtx []) 0 w0 =
    (inr tt,
     {| trace := [EvGetDeleteSQL; EvRequireDbApi 1; EvGetDeleteParams 0;
                  EvExec 7 1 "DELETE ..." [VArr [VNull; VStr "ann"]]];
        heap := heap w0; cursors := cursors w0 |}).
Proof.
  exact (proj1 (delete_passes_params_as_one_argument
                  (adapter MappingFlags.none) (sampleCtx []) 0 w0 "DELETE ..."
                  (sampleDb []) [VNull; VStr "ann"] eq_refl eq_refl eq_refl)).
Defined.

Lemma insert_generatedId_witness :
  trace (insert (adapter MappingFlags.generatedId) (sampleCtx [[VNum 42]]) 0 w0).2 =
    [EvGetInsertSQL; EvRequireDbApi 1; EvGetInsertParams 0;
     EvQuery 7 1 "INSERT ... RETURNING id" [VStr "ann"];
     EvNext 0; EvSetKey 0 (VNum 42); EvClose 0] /\
  heap (insert (adapter MappingFlags.generatedId) (sampleCtx [[VNum 42]]) 0 w0).2 =
    <[0 := (VNum 42, VStr "ann")]> (heap w0) /\
  (insert (adapter MappingFlags.generatedId) (sampleCtx [[VNum 42]]) 0 w0).1 = inr tt.
Proof.
  destruct (insert_generatedId (adapter MappingFlags.generatedId)
              (sampleCtx [[VNum 42]]) 0 w0 "INSERT ... RETURNING id"
              (sampleDb [[VNum 42]]) [VStr "ann"]
              {| fetches := [FetchRow [VNum 42]]; closeError := None |}
              eq_refl eq_refl eq_refl eq_refl eq_refl eq_refl) as [_ Hrow].
  destruct (Hrow [VNum 42] [] eq_refl) as [Htrace Hkey].
  destruct (Hkey (VNum 42, VStr "ann") eq_refl) as [Hheap Hres].
  split; [exact Htrace|]. split; [exact Hheap|exact (Hres eq_refl)].
Defined.

Lemma generated_row_is_loaded_witness :
  heap (insert (adapter MappingFlags.generatedOnInsert)
          (sampleCtx [[VNum 42; VStr "ann b"]]) 0 w0).2 =
    <[0 := (VNum 42, VStr "ann b")]> (heap w0) /\
  (update (adapter MappingFlags.generatedOnUpdate) (sampleCtx []) 0 w0).1 =
    inl (RecordError AdapterError.NON_QUERY
           "Expected updated row, but update query returned no row").
Proof.
  split.
  - destruct (generated_row_is_loaded (adapter MappingFlags.generatedOnInsert)
                (sampleCtx [[VNum 42; VStr "ann b"]]) 0 w0
                "INSERT ... RETURNING id" (sampleDb [[VNum 42; VStr "ann b"]])
                [VStr "ann"]
                {| fetches := [FetchRow [VNum 42; VStr "ann b"]];
                   closeError := None |}
                eq_refl eq_refl) as [Hinsert _].
    destruct (Hinsert eq_refl eq_refl eq_refl) as [_ Hrow].
    destruct (Hrow [VNum 42; VStr "ann b"] [] eq_refl) as [_ Hload].
    exact (proj1 (Hload (VNum 42, VStr "ann b") eq_refl)).
  - destruct (generated_row_is_loaded (adapter MappingFlags.generatedOnUpdate)
                (sampleCtx []) 0 w0 "UPDATE ..." (sampleDb [])
                [VStr "ann"; VNull]
                {| fetches := []; closeError := None |}
                eq_refl eq_refl) as [_ Hupdate].
    destruct (Hupdate eq_refl eq_refl eq_refl) as [Hzero _].
    destruct (Hzero eq_refl) as (_ & _ & Hres).
    exact (Hres eq_refl).
Defined.

Lemma missing_statement_fails_first_witness :
  insert bareAdapter (sampleCtx []) 0 w0 =
    (inl (RecordError AdapterError.MISSING_STATEMENT "INSERT SQL not defined"),
     {| trace := [EvGetInsertSQL]; heap := heap w0; cursors := cursors w0 |}) /\
  update bareAdapter (sampleCtx []) 0 w0 =
    (inl (RecordError AdapterError.MISSING_STATEMENT "UPDATE SQL not defined"),
     {| trace := [EvGetUpdateSQL]; heap := heap w0; cursors := cursors w0 |}) /\
  delete bareAdapter (sampleCtx []) 0 w0 =
    (inl (RecordError AdapterError.MISSING_STATEMENT "DELETE SQL not defined"),
     {| trace := [EvGetDeleteSQL]; heap := heap w0; cursors := cursors w0 |}).
Proof.
  destruct (missing_statement_fails_first bareAdapter (sampleCtx []) 0 w0)
    as (Hi & Hu & Hd).
  split; [exact (Hi eq_refl)|]. split; [exact (Hu eq_refl)|exact (Hd eq_refl)].
Defined.

Lemma insert_plain_execs_once_witness :
  insert (adapter MappingFlags.generatedOnUpdate) (sampleCtx []) 0 w0 =
    (inr tt,
     {| trace := [EvGetInsertSQL; EvRequireDbApi 1; EvGetInsertParams 0;
                  EvExec 7 1 "INSERT ... RETURNING id" [VStr "ann"]];
        heap := heap w0; cursors := cursors w0 |}).
Proof.
  apply (insert_plain_execs_once (adapter MappingFlags.generatedOnUpdate)
           (sampleCtx []) 0 w0 "INSERT ... RETURNING id" (sampleDb [])
           [VStr "ann"]); reflexivity.
Defined.

Lemma selectOne_first_row_only_witness :
  selectOne (adapter MappingFlags.none) (sampleCtx []) byStatus None w0 =
    (inr None,
     {| trace := [EvGetSelectSQL ["status"]; EvRequireDbApi 1;
                  EvQuery 7 1 "SELECT,status" [VStr "active"];
                  EvNext 0; EvClose 0];
        heap := heap w0;
        cursors := {[ 0 := {| pending := []; current := None;
                              closeErr := None; closed := 1 |} ]} |}) /\
  selectOne (adapter MappingFlags.none) (sampleCtx people) byStatus None w0 =
    (inr (Some 1),
     {| trace := [EvGetSelectSQL ["status"]; EvRequireDbApi 1;
                  EvQuery 7 1 "SELECT,status" [VStr "active"];
                  EvNext 0; EvCreate 1; EvLoad [VNum 42; VStr "bob"] 1;
                  EvClose 0];
        heap := <[1 := (VNum 42, VStr "bob")]> (heap w0);
        cursors := {[ 0 := {| pending := [FetchRow [VNum 43; VStr "cy"]];
                              current := Some [VNum 42; VStr "bob"];
                              closeErr := None; closed := 1 |} ]} |}).
Proof.
  split.
  - exact (proj1 (selectOne_first_row_only (adapter MappingFlags.none)
                    (sampleCtx []) byStatus None w0 (sampleDb [])
                    {| fetches := []; closeError := None |}
                    eq_refl eq_refl eq_refl) eq_refl).
  - exact (proj2 (selectOne_first_row_only (adapter MappingFlags.none)
                    (sampleCtx people) byStatus None w0 (sampleDb people)
                    {| fetches := map FetchRow people; closeError := None |}
                    eq_refl eq_refl eq_refl)
             [VNum 42; VStr "bob"] [FetchRow [VNum 43; VStr "cy"]]
             (VUndefined, VUndefined) (VNum 42, VStr "bob")
             eq_refl eq_refl eq_refl).
Defined.

Lemma selectMany_yields_each_row_witness :
  exists records w1,
    for_await (adapter MappingFlags.none) 2
      (selectMany (sampleCtx people) byStatus None) w0 =
      ((records, None), Completed, w1) /\
    length records = 2 /\
    Forall2 (fun r row => heap w1 !! r = Some (loadedFields row)) records people.
Proof.
  destruct (selectMany_yields_each_row (adapter MappingFlags.none)
              (sampleCtx people) byStatus None (sampleDb people)
              {| fetches := map FetchRow people; closeError := None |}
              people (VUndefined, VUndefined) loadedFields 2 w0
              eq_refl eq_refl eq_refl eq_refl eq_refl
              (fun _ _ => eq_refl) (le_n 2))
    as (records & w1 & Hrun & Hlen & Hall & _).
  exists records, w1. split; [exact Hrun|]. split; [exact Hlen|exact Hall].
Defined.

Lemma select_by_filter_mapping_witness :
  exists more,
    trace (gen_next (adapter MappingFlags.none)
             (selectMany (sampleCtx people) byStatus None) w0).2 =
      [EvGetSelectSQL ["status"]; EvRequireDbApi 1;
       EvQuery 7 1 "SELECT,status" [VStr "active"]] ++ more.
Proof.
  exact (proj2 (select_by_filter_mapping (adapter MappingFlags.none)
                  (sampleCtx people) [("status", VStr "active")] None w0
                  (sampleDb people) eq_refl)).
Defined.

Lemma executor_required_from_context_witness :
  insert (adapter MappingFlags.none) emptyCtx 0 w0 =
    (inl missing_item,
     {| trace := [EvGetInsertSQL; EvRequireDbApi 2];
        heap := heap w0; cursors := cursors w0 |}) /\
  selectOne (adapter MappingFlags.none) emptyCtx byStatus None w0 =
    (inl missing_item,
     {| trace := [EvGetSelectSQL ["status"]; EvRequireDbApi 2];
        heap := heap w0; cursors := cursors w0 |}).
Proof.
  destruct (executor_required_from_context (adapter MappingFlags.none) emptyCtx
              0 byStatus None w0) as [_ Hnone].
  destruct (Hnone eq_refl) as (Hi & _ & _ & _ & _ & _ & Hone & _).
  split; [exact (Hi "INSERT ... RETURNING id" eq_refl)|exact Hone].
Defined.

(** ** More properties of the adapter *)

Section FailureProperties.

Context {TRecord : Type} `{!Inhabited TRecord}.
Variable this : SqlAdapterBase TRecord.

(** X1: without [generatedOnUpdate], [update] makes one [exec] call with the
    update parameters spread and nothing after it; what [exec] throws is
    what [update] throws; heap and cursors are as before. *)
Theorem update_plain_execs_once (ctx : IContext) (record : loc)
    (w : World TRecord) (sql : string) (db : DbApi) (params : list Value) :
  hasMappingFlag (flags (mapper this)) MappingFlags.generatedOnUpdate = false ->
  getUpdateSQL (sqlSource this) = Some sql ->
  ctxDbApi ctx = Some db ->
  getUpdateParams (mapper this) (heap w !!! record) = inr params ->
  update this ctx record w =
    (match dbExec db sql params with Some e => inl e | None => inr tt end,
     {| trace := trace w ++
          [EvGetUpdateSQL; EvRequireDbApi (ctxId ctx); EvGetUpdateParams record;
           EvExec (dbId db) (ctxId ctx) sql params];
        heap := heap w; cursors := cursors w |}).
Proof.
  intros Hflag Hsql Hdb Hparams. unfold_calls. run.
  destruct (dbExec db sql params); reflexivity.
Qed.

(** X2: when the mapper throws while the parameters are extracted, [insert],
    [update] and [delete] fail with that error after the statement was
    resolved and the context looked up, and before any executor call. *)
Theorem params_failure_stops_before_executor (ctx : IContext) (record : loc)
    (w : World TRecord) (db : DbApi) (e : Error) :
  ctxDbApi ctx = Some db ->
  let stopped evs :=
    (inl e : Error + unit,
     {| trace := trace w ++ evs; heap := heap w; cursors := cursors w |}) in
  (forall sql, getInsertSQL (sqlSource this) = Some sql ->
     getInsertParams (mapper this) (heap w !!! record) = inl e ->
     insert this ctx record w =
       stopped [EvGetInsertSQL; EvRequireDbApi (ctxId ctx);
                EvGetInsertParams record]) /\
  (forall sql, getUpdateSQL (sqlSource this) = Some sql ->
     getUpdateParams (mapper this) (heap w !!! record) = inl e ->
     update this ctx record w =
       stopped [EvGetUpdateSQL; EvRequireDbApi (ctxId ctx);
                EvGetUpdateParams record]) /\
  (forall sql, getDeleteSQL (sqlSource this) = Some sql ->
     getDeleteParams (mapper this) (heap w !!! record) = inl e ->
     delete this ctx record w =
       stopped [EvGetDeleteSQL; EvRequireDbApi (ctxId ctx);
                EvGetDeleteParams record]).
Proof.
  intros Hdb stopped. subst stopped.
  repeat split; intros sql Hsql Hparams; unfold_calls; run; reflexivity.
Qed.

(** X3: when [query] throws, the operations that query ([insert] in a
    generated mode, [update] with [generatedOnUpdate], [selectOne], the first
    [next] of [selectMany]) fail with that error; no cursor exists, so
    neither [next] nor [close] is called, and no record is touched. *)
Theorem query_failure_opens_nothing (ctx : IContext) (record : loc)
    (sqlOrParams : SqlOrParams) (ps : ParamMap) (w : World TRecord)
    (db : DbApi) (e : Error) :
  ctxDbApi ctx = Some db ->
  let failed evs :=
    {| trace := trace w ++ evs; heap := heap w; cursors := cursors w |} in
  (forall sql params,
     hasMappingFlag (flags (mapper this)) MappingFlags.generatedOnInsert = true \/
     hasMappingFlag (flags (mapper this)) MappingFlags.generatedId = true ->
     getInsertSQL (sqlSource this) = Some sql ->
     getInsertParams (mapper this) (heap w !!! record) = inr params ->
     dbQuery db sql params = inl e ->
     insert this ctx record w =
       (inl e, failed [EvGetInsertSQL; EvRequireDbApi (ctxId ctx);
                       EvGetInsertParams record;
                       EvQuery (dbId db) (ctxId ctx) sql params])) /\
  (forall sql params,
     hasMappingFlag (flags (mapper this)) MappingFlags.generatedOnUpdate = true ->
     getUpdateSQL (sqlSource this) = Some sql ->
     getUpdateParams (mapper this) (heap w !!! record) = inr params ->
     dbQuery db sql params = inl e ->
     update this ctx record w =
       (inl e, failed [EvGetUpdateSQL; EvRequireDbApi (ctxId ctx);
                       EvGetUpdateParams record;
                       EvQuery (dbId db) (ctxId ctx) sql params])) /\
  (dbQuery db (effective_sql this sqlOrParams)
     (toParamArray (effective_params sqlOrParams ps)) = inl e ->
   selectOne this ctx sqlOrParams ps w =
     (inl e, failed (query_events this ctx db sqlOrParams ps)) /\
   gen_next this (selectMany ctx sqlOrParams ps) w =
     (Completed, inl e, failed (query_events this ctx db sqlOrParams ps))).
Proof.
  intros Hdb failed. subst failed. split; [|split].
  - intros sql params Hmode Hsql Hparams Hq.
    destruct (hasMappingFlag _ MappingFlags.generatedOnInsert) eqn:Hf1.
    + unfold_calls. run. reflexivity.
    + destruct Hmode as [Hmode|Hmode]; [discriminate|].
      unfold_calls. run. reflexivity.
  - intros sql params Hmode Hsql Hparams Hq. unfold_calls. run. reflexivity.
  - intros Hq. unfold query_events. split.
    + unfold selectOne, bind at 1. rewrite resolveSelect_run.
      unfold_calls. run. reflexivity.
    + unfold selectMany, gen_next, selectMany_open, bind at 1.
      rewrite resolveSelect_run. unfold_calls. run. reflexivity.
Qed.

(** X4: when the first [next()] throws on a write path, the operation fails
    with that error (the [close()] not throwing), after exactly one
    [close()]; neither [load] nor [setKey] is called and the record is as it
    was. *)
Theorem next_failure_on_write_paths (ctx : IContext) (record : loc)
    (w : World TRecord) (sql : string) (db : DbApi) (params : list Value)
    (script : RowsScript) (e : Error) (rest : list Fetch) :
  ctxDbApi ctx = Some db ->
  dbQuery db sql params = inr script ->
  fetches script = FetchFail e :: rest ->
  closeError script = None ->
  let rows := fresh (dom (cursors w)) in
  let failed evs :=
    (inl e : Error + unit,
     {| trace := trace w ++ evs ++
          [EvQuery (dbId db) (ctxId ctx) sql params; EvNext rows; EvClose rows];
        heap := heap w;
        cursors := <[rows := {| pending := rest; current := None;
                                closeErr := None; closed := 1 |}]> (cursors w) |}) in
  (hasMappingFlag (flags (mapper this)) MappingFlags.generatedOnInsert = true \/
   hasMappingFlag (flags (mapper this)) MappingFlags.generatedId = true ->
   getInsertSQL (sqlSource this) = Some sql ->
   getInsertParams (mapper this) (heap w !!! record) = inr params ->
   insert this ctx record w =
     failed [EvGetInsertSQL; EvRequireDbApi (ctxId ctx); EvGetInsertParams record]) /\
  (hasMappingFlag (flags (mapper this)) MappingFlags.generatedOnUpdate = true ->
   getUpdateSQL (sqlSource this) = Some sql ->
   getUpdateParams (mapper this) (heap w !!! record) = inr params ->
   update this ctx record w =
     failed [EvGetUpdateSQL; EvRequireDbApi (ctxId ctx); EvGetUpdateParams record]).
Proof.
  intros Hdb Hq Hfetch Hclose rows failed. subst rows failed. split.
  - intros Hmode Hsql Hparams.
    destruct (hasMappingFlag _ MappingFlags.generatedOnInsert) eqn:Hf1.
    + unfold_calls. run. reflexivity.
    + destruct Hmode as [Hmode|Hmode]; [discriminate|].
      unfold_calls. run. reflexivity.
  - intros Hmode Hsql Hparams. unfold_calls. run. reflexivity.
Qed.

(** X5: failures of [selectOne] after its query: when [next()], [create] or
    [load] throws, [selectOne] fails with that error (the [close()] not
    throwing) after exactly one [close()].  The calls made are [next()] and
    [close()] when [next()] throws; [next()], [create()] and [close()] when
    [create()] throws, and no object is made; [next()], [create()], [load]
    and [close()] when [load] throws, and the blank object that [create]
    made is left behind, not returned. *)
Theorem selectOne_failure_propagates (ctx : IContext) (sqlOrParams : SqlOrParams)
    (ps : ParamMap) (w : World TRecord) (db : DbApi) (script : RowsScript)
    (e : Error) :
  ctxDbApi ctx = Some db ->
  dbQuery db (effective_sql this sqlOrParams)
    (toParamArray (effective_params sqlOrParams ps)) = inr script ->
  closeError script = None ->
  let rows := fresh (dom (cursors w)) in
  let issued := trace w ++ query_events this ctx db sqlOrParams ps in
  (forall rest, fetches script = FetchFail e :: rest ->
     selectOne this ctx sqlOrParams ps w =
       (inl e,
        {| trace := issued ++ [EvNext rows; EvClose rows];
           heap := heap w;
           cursors := <[rows := {| pending := rest; current := None;
                                   closeErr := None; closed := 1 |}]> (cursors w) |})) /\
  (forall row rest, fetches script = FetchRow row :: rest ->
     create (mapper this) = inl e ->
     selectOne this ctx sqlOrParams ps w =
       (inl e,
        {| trace := issued ++
             [EvNext rows; EvCreate (fresh (dom (heap w))); EvClose rows];
           heap := heap w;
           cursors := <[rows := {| pending := rest; current := Some row;
                                   closeErr := None; closed := 1 |}]> (cursors w) |})) /\
  (forall row rest blank, fetches script = FetchRow row :: rest ->
     create (mapper this) = inr blank ->
     load (mapper this) row blank = inl e ->
     let record := fresh (dom (heap w)) in
     selectOne this ctx sqlOrParams ps w =
       (inl e,
        {| trace := issued ++
             [EvNext rows; EvCreate record; EvLoad row record; EvClose rows];
           heap := <[record := blank]> (heap w);
           cursors := <[rows := {| pending := rest; current := Some row;
                                   closeErr := None; closed := 1 |}]> (cursors w) |})).
Proof.
  intros Hdb Hq Hclose rows issued. subst rows issued. unfold query_events.
  split; [|split].
  - intros rest Hfetch. unfold selectOne, bind at 1. rewrite resolveSelect_run.
    unfold_calls. run. reflexivity.
  - intros row rest Hfetch Hcreate.
    unfold selectOne, bind at 1. rewrite resolveSelect_run.
    unfold_calls. run. reflexivity.
  - intros row rest blank Hfetch Hcreate Hload. cbv zeta.
    unfold selectOne, bind at 1. rewrite resolveSelect_run.
    unfold_calls. run. reflexivity.
Qed.

End FailureProperties.

Section TraversalProperties.

Context {TRecord : Type} `{!Inhabited TRecord}.
Variable this : SqlAdapterBase TRecord.

(** *** [selectOne] and [selectMany] *)

Lemma selectOne_from_open (ctx : IContext) (sqlOrParams : SqlOrParams)
    (ps : ParamMap) (w : World TRecord) :
  selectOne this ctx sqlOrParams ps w =
    match selectMany_open this ctx sqlOrParams ps w with
    | (inr rows, w1) =>
        try_finally (selectMany_loop this rows) (rows_close rows) w1
    | (inl e, w1) => (inl e, w1)
    end.
Proof.
  unfold selectOne, selectMany_open, selectMany_loop, try_finally, bind, ret.
  destruct (resolveSelect this sqlOrParams ps w) as [[e|[sql ps']] w1];
    [reflexivity|].
  destruct (Context_require_getDbApi ctx w1) as [[e|db] w2]; [reflexivity|].
  destruct (db_query db ctx sql (toParamArray ps') w2) as [[e|rows] w3];
    [reflexivity|].
  destruct (rows_next rows w3) as [[e|[|]] w4]; reflexivity.
Qed.

(** X6: [selectOne] is [selectMany] left at its first record: for all
    collaborators, it leaves the world that a [for await] loop with a [break]
    at the first record leaves, and it returns the record taken (or [null]
    when none was), or throws what the loop throws. *)
Theorem selectOne_is_selectMany_cut_at_first (ctx : IContext)
    (sqlOrParams : SqlOrParams) (ps : ParamMap) (w : World TRecord) :
  let '((records, err), _, w') :=
    for_await this 0 (selectMany ctx sqlOrParams ps) w in
  selectOne this ctx sqlOrParams ps w =
    (match err with Some e => inl e | None => inr (head records) end, w').
Proof.
  rewrite selectOne_from_open. unfold selectMany. cbn [for_await gen_next].
  destruct (selectMany_open this ctx sqlOrParams ps w) as [[e|rows] w1];
    [reflexivity|].
  unfold selectMany_resume, try_finally.
  destruct (selectMany_loop this rows w1) as [[e|[record|]] w2];
    unfold gen_return, try_finally, bind, lift, ret;
    destruct (rows_close rows w2) as [[e'|u] w3]; reflexivity.
Qed.

(** *** Traversals that end early *)

Lemma traversal_events_app (c : nat) (rs1 rs2 : list loc)
    (d1 d2 : list (list Value)) :
  length rs1 = length d1 ->
  traversal_events c (rs1 ++ rs2) (d1 ++ d2) =
  traversal_events c rs1 d1 ++ traversal_events c rs2 d2.
Proof.
  revert d1. induction rs1 as [|r rs1 IH]; intros [|row d1] Hlen;
    simpl in *; try discriminate; [reflexivity|].
  rewrite IH by lia. reflexivity.
Qed.

Lemma selectMany_resume_next_fails (rows : nat) (w : World TRecord) (cur : Rows)
    (e : Error) (rest : list Fetch) :
  cursors w !! rows = Some cur ->
  pending cur = FetchFail e :: rest ->
  closeErr cur = None ->
  selectMany_resume this rows w =
    (Completed, inl e,
     {| trace := trace w ++ [EvNext rows; EvClose rows];
        heap := heap w;
        cursors := <[rows := {| pending := rest; current := current cur;
                                closeErr := None;
                                closed := S (closed cur) |}]> (cursors w) |}).
Proof.
  intros Hcur Hpending Hclose.
  unfold selectMany_resume. unfold_calls. run. reflexivity.
Qed.

Lemma selectMany_resume_load_fails (rows : nat) (w : World TRecord) (cur : Rows)
    (row : list Value) (rest : list Fetch) (blank : TRecord) (e : Error) :
  cursors w !! rows = Some cur ->
  pending cur = FetchRow row :: rest ->
  closeErr cur = None ->
  create (mapper this) = inr blank ->
  load (mapper this) row blank = inl e ->
  selectMany_resume this rows w =
    (Completed, inl e,
     {| trace := trace w ++
          [EvNext rows; EvCreate (fresh (dom (heap w)));
           EvLoad row (fresh (dom (heap w))); EvClose rows];
        heap := <[fresh (dom (heap w)) := blank]> (heap w);
        cursors := <[rows := {| pending := rest; current := Some row;
                                closeErr := None;
                                closed := S (closed cur) |}]> (cursors w) |}).
Proof.
  intros Hcur Hpending Hclose Hcreate Hload.
  unfold selectMany_resume. unfold_calls. run. reflexivity.
Qed.

Lemma gen_return_closes (rows : nat) (w : World TRecord) (cur : Rows) :
  cursors w !! rows = Some cur ->
  closeErr cur = None ->
  gen_return (SuspendedYield rows) w =
    (Completed, inr Done,
     {| trace := trace w ++ [EvClose rows];
        heap := heap w;
        cursors := <[rows := {| pending := pending cur; current := current cur;
                                closeErr := None;
                                closed := S (closed cur) |}]> (cursors w) |}).
Proof.
  intros Hcur Hclose. unfold gen_return. unfold_calls. run. reflexivity.
Qed.

(** A traversal over a cursor whose first answers are the rows [good]: it
    takes one record per row of [good], and goes on from there. *)
Lemma for_await_prefix (c : nat) (blank : TRecord)
    (loaded : list Value -> TRecord) :
  create (mapper this) = inr blank ->
  forall (good : list (list Value)) (k : nat) (w : World TRecord) (cur : Rows)
         (tail : list Fetch),
    (forall row, row ∈ good -> load (mapper this) row blank = inr (loaded row)) ->
    length good <= k ->
    cursors w !! c = Some cur ->
    pending cur = map FetchRow good ++ tail ->
    exists records wm curm,
      for_await this k (SuspendedYield c) w =
        (let '((rs, err), g, w') :=
           for_await this (k - length good) (SuspendedYield c) wm in
         ((records ++ rs, err), g, w')) /\
      Forall2 (fun r row => heap wm !! r = Some (loaded row)) records good /\
      (forall r, r ∈ records -> heap w !! r = None) /\
      (forall l v, heap w !! l = Some v -> heap wm !! l = Some v) /\
      trace wm = trace w ++ traversal_events c records good /\
      cursors wm = <[c := curm]> (cursors w) /\
      pending curm = tail /\
      closeErr curm = closeErr cur /\
      closed curm = closed cur.
Proof.
  intros Hcreate good.
  induction good as [|row good IH]; intros k w cur tail Hload Hk Hcur Hpending.
  - exists [], w, cur. rewrite Nat.sub_0_r. split.
    { destruct (for_await this k (SuspendedYield c) w) as [[[rs err] g] w'].
      reflexivity. }
    simpl. rewrite app_nil_r, insert_id by assumption.
    repeat split; auto. intros r Hr. inversion Hr.
  - destruct k as [|k]; [simpl in Hk; lia|].
    simpl in Hpending.
    pose proof (selectMany_resume_row this c w cur row
                  (map FetchRow good ++ tail) blank (loaded row) Hcur Hpending
                  Hcreate (Hload row (list_elem_of_here _ _))) as Hstep.
    set (r := fresh (dom (heap w))) in *.
    assert (heap w !! r = None) as Hfresh
      by (apply not_elem_of_dom, is_fresh).
    match type of Hstep with _ = (_, _, ?x) => set (w1 := x) in * end.
    destruct (IH k w1 {| pending := map FetchRow good ++ tail;
                         current := Some row;
                         closeErr := closeErr cur; closed := closed cur |} tail)
      as (records & wm & curm & Hrun & Hall & Hnew & Hold & Htrace & Hcursors
          & Htail & Hce & Hclosed).
    { intros row' Hrow'. apply Hload. apply list_elem_of_further, Hrow'. }
    { simpl in Hk. lia. }
    { apply lookup_insert_eq. }
    { reflexivity. }
    exists (r :: records), wm, curm. split.
    { cbn [for_await gen_next]. rewrite Hstep, Hrun. simpl.
      destruct (for_await this (k - length good) (SuspendedYield c) wm)
        as [[[rs err] g] w']. reflexivity. }
    split.
    { constructor; [|exact Hall]. apply Hold. simpl. apply lookup_insert_eq. }
    split.
    { intros r' [->|Hin]%elem_of_cons; [assumption|].
      specialize (Hnew r' Hin). simpl in Hnew.
      apply lookup_insert_None in Hnew. tauto. }
    split.
    { intros l v Hl. apply Hold. simpl. rewrite lookup_insert_ne; [assumption|].
      intros <-. congruence. }
    split.
    { rewrite Htrace. simpl. rewrite <- app_assoc. reflexivity. }
    split; [rewrite Hcursors; simpl; apply insert_insert_eq|].
    repeat split; assumption.
Qed.

(** X7: a [for await] loop over [selectMany] that breaks at its record
    number [k + 1] takes [k + 1] records, one per row and in order, calls
    [next()] [k + 1] times and no more, and closes the cursor once with the
    rows behind still pending: the result set is not drained. *)
Theorem selectMany_break_leaves_rows (ctx : IContext) (sqlOrParams : SqlOrParams)
    (ps : ParamMap) (db : DbApi) (script : RowsScript)
    (taken : list (list Value)) (left : list Fetch) (blank : TRecord)
    (loaded : list Value -> TRecord) (k : nat) (w : World TRecord) :
  ctxDbApi ctx = Some db ->
  dbQuery db (effective_sql this sqlOrParams)
    (toParamArray (effective_params sqlOrParams ps)) = inr script ->
  fetches script = map FetchRow taken ++ left ->
  closeError script = None ->
  create (mapper this) = inr blank ->
  (forall row, row ∈ taken -> load (mapper this) row blank = inr (loaded row)) ->
  length taken = S k ->
  let c := fresh (dom (cursors w)) in
  exists records w' cur',
    for_await this k (selectMany ctx sqlOrParams ps) w =
      ((records, None), Completed, w') /\
    Forall2 (fun r row => heap w' !! r = Some (loaded row)) records taken /\
    trace w' = trace w ++ query_events this ctx db sqlOrParams ps ++
               traversal_events c records taken ++ [EvClose c] /\
    cursors w' = <[c := cur']> (cursors w) /\
    pending cur' = left /\
    closed cur' = 1.
Proof.
  intros Hdb Hq Hfetches Hclose Hcreate Hload Hlen c.
  destruct (@exists_last _ taken) as (good & row & ->).
  { intros ->. discriminate. }
  rewrite length_app in Hlen. simpl in Hlen.
  assert (length good = k) as Hk by lia. clear Hlen.
  pose proof (selectMany_open_run this ctx sqlOrParams ps w db script Hdb Hq)
    as Hopen.
  fold c in Hopen.
  match type of Hopen with _ = (_, ?x) => set (w1 := x) in * end.
  rewrite map_app, <- app_assoc in Hfetches. simpl in Hfetches.
  destruct (for_await_prefix c blank loaded Hcreate good k w1
              {| pending := fetches script; current := None;
                 closeErr := closeError script; closed := 0 |}
              (FetchRow row :: left))
    as (records & wm & curm & Hrun & Hall & Hnew & Hold & Htrace & Hcursors
        & Htail & Hce & Hclosed).
  { intros row' Hrow'. apply Hload. apply elem_of_app. left. assumption. }
  { lia. }
  { apply lookup_insert_eq. }
  { exact Hfetches. }
  simpl in Hce, Hclosed.
  assert (cursors wm !! c = Some curm) as Hcurm
    by (rewrite Hcursors; apply lookup_insert_eq).
  pose proof (selectMany_resume_row this c wm curm row left blank (loaded row)
                Hcurm Htail Hcreate
                (Hload row ltac:(apply elem_of_app; right; constructor)))
    as Hstep.
  set (r := fresh (dom (heap wm))) in *.
  match type of Hstep with _ = (_, _, ?x) => set (w2 := x) in * end.
  pose proof (gen_return_closes c w2
                {| pending := left; current := Some row;
                   closeErr := closeErr curm; closed := closed curm |}
                ltac:(apply lookup_insert_eq) ltac:(simpl; congruence)) as Hret.
  cbn [pending current closeErr closed] in Hret.
  match type of Hret with _ = (_, _, ?x) => set (w3 := x) in * end.
  exists (records ++ [r]), w3, {| pending := left; current := Some row;
                                 closeErr := None; closed := S (closed curm) |}.
  split.
  { unfold selectMany. rewrite (for_await_started this k _ _ _ _ _ _ Hopen).
    rewrite Hrun, Hk, Nat.sub_diag. cbn [for_await gen_next].
    rewrite Hstep, Hret. reflexivity. }
  split.
  { apply Forall2_app.
    - eapply Forall2_impl; [exact Hall|]. intros r' row' Hr'. simpl.
      rewrite lookup_insert_ne; [assumption|].
      intros <-. pose proof (is_fresh (dom (heap wm))) as Hf.
      apply Hf, elem_of_dom. eauto.
    - constructor; [|constructor]. simpl. apply lookup_insert_eq. }
  split.
  { simpl. rewrite Htrace. simpl.
    rewrite traversal_events_app by (eapply Forall2_length; eassumption).
    simpl. rewrite <- !app_assoc. reflexivity. }
  split.
  { simpl. rewrite Hcursors. simpl. rewrite !insert_insert_eq. reflexivity. }
  split; [reflexivity|]. simpl. rewrite Hclosed. reflexivity.
Qed.

(** X8: a traversal of [selectMany] that fails at a row, because [next()]
    throws or because [load] throws on the row fetched, has taken one record
    for each row before it, throws that error out of the loop (the [close()]
    not throwing), and has closed the cursor once, the answers behind still
    pending. *)
Theorem selectMany_failure_mid_traversal (ctx : IContext)
    (sqlOrParams : SqlOrParams) (ps : ParamMap) (db : DbApi)
    (script : RowsScript) (good : list (list Value)) (rest : list Fetch)
    (blank : TRecord) (loaded : list Value -> TRecord) (k : nat) (e : Error)
    (w : World TRecord) :
  ctxDbApi ctx = Some db ->
  dbQuery db (effective_sql this sqlOrParams)
    (toParamArray (effective_params sqlOrParams ps)) = inr script ->
  closeError script = None ->
  create (mapper this) = inr blank ->
  (forall row, row ∈ good -> load (mapper this) row blank = inr (loaded row)) ->
  length good <= k ->
  let c := fresh (dom (cursors w)) in
  let issued := trace w ++ query_events this ctx db sqlOrParams ps in
  (fetches script = map FetchRow good ++ FetchFail e :: rest ->
   exists records w' cur',
     for_await this k (selectMany ctx sqlOrParams ps) w =
       ((records, Some e), Completed, w') /\
     Forall2 (fun r row => heap w' !! r = Some (loaded row)) records good /\
     trace w' = issued ++ traversal_events c records good ++
                [EvNext c; EvClose c] /\
     cursors w' = <[c := cur']> (cursors w) /\
     pending cur' = rest /\ closed cur' = 1) /\
  (forall bad,
   fetches script = map FetchRow good ++ FetchRow bad :: rest ->
   load (mapper this) bad blank = inl e ->
   exists records orphan w' cur',
     for_await this k (selectMany ctx sqlOrParams ps) w =
       ((records, Some e), Completed, w') /\
     Forall2 (fun r row => heap w' !! r = Some (loaded row)) records good /\
     (orphan ∉ records) /\
     heap w' !! orphan = Some blank /\
     trace w' = issued ++ traversal_events c records good ++
                [EvNext c; EvCreate orphan; EvLoad bad orphan; EvClose c] /\
     cursors w' = <[c := cur']> (cursors w) /\
     pending cur' = rest /\ closed cur' = 1).
Proof.
  intros Hdb Hq Hclose Hcreate Hload Hk c issued. subst issued.
  pose proof (selectMany_open_run this ctx sqlOrParams ps w db script Hdb Hq)
    as Hopen.
  fold c in Hopen.
  match type of Hopen with _ = (_, ?x) => set (w1 := x) in * end.
  assert (forall tail, fetches script = map FetchRow good ++ tail ->
    exists records wm curm,
      for_await this k (selectMany ctx sqlOrParams ps) w =
        (let '((rs, err), g, w') :=
           for_await this (k - length good) (SuspendedYield c) wm in
         ((records ++ rs, err), g, w')) /\
      Forall2 (fun r row => heap wm !! r = Some (loaded row)) records good /\
      trace wm = trace w ++ query_events this ctx db sqlOrParams ps ++
                 traversal_events c records good /\
      cursors wm = <[c := curm]> (cursors w) /\
      cursors wm !! c = Some curm /\
      pending curm = tail /\ closeErr curm = None /\ closed curm = 0)
    as Hprefix.
  { intros tail Hfetches.
    destruct (for_await_prefix c blank loaded Hcreate good k w1
                {| pending := fetches script; current := None;
                   closeErr := closeError script; closed := 0 |} tail)
      as (records & wm & curm & Hrun & Hall & Hnew & Hold & Htrace & Hcursors
          & Htail & Hce & Hclosed); auto.
    { apply lookup_insert_eq. }
    exists records, wm, curm. split.
    { unfold selectMany. rewrite (for_await_started this k _ _ _ _ _ _ Hopen).
      exact Hrun. }
    split; [exact Hall|]. split.
    { rewrite Htrace. simpl. rewrite <- app_assoc. reflexivity. }
    split; [rewrite Hcursors; simpl; apply insert_insert_eq|].
    split; [rewrite Hcursors; apply lookup_insert_eq|].
    simpl in *. repeat split; congruence. }
  split.
  - intros Hfetches.
    destruct (Hprefix _ Hfetches)
      as (records & wm & curm & Hrun & Hall & Htrace & Hcursors & Hcurm
          & Htail & Hce & Hclosed).
    pose proof (selectMany_resume_next_fails c wm curm e rest Hcurm Htail Hce)
      as Hstep.
    match type of Hstep with _ = (_, _, ?x) => set (w2 := x) in * end.
    exists records, w2, {| pending := rest; current := current curm;
                           closeErr := None; closed := S (closed curm) |}.
    split.
    { rewrite Hrun.
      destruct (k - length good); cbn [for_await gen_next]; rewrite Hstep;
        rewrite app_nil_r; reflexivity. }
    split; [exact Hall|]. split.
    { simpl. rewrite Htrace, <- !app_assoc. reflexivity. }
    split; [simpl; rewrite Hcursors, insert_insert_eq; reflexivity|].
    split; [reflexivity|]. simpl. rewrite Hclosed. reflexivity.
  - intros bad Hfetches Hbad.
    destruct (Hprefix _ Hfetches)
      as (records & wm & curm & Hrun & Hall & Htrace & Hcursors & Hcurm
          & Htail & Hce & Hclosed).
    pose proof (selectMany_resume_load_fails c wm curm bad rest blank e
                  Hcurm Htail Hce Hcreate Hbad) as Hstep.
    set (r := fresh (dom (heap wm))) in *.
    assert (heap wm !! r = None) as Hfresh
      by (apply not_elem_of_dom, is_fresh).
    match type of Hstep with _ = (_, _, ?x) => set (w2 := x) in * end.
    assert (r ∉ records) as Hnotin.
    { intros Hin. apply list_elem_of_lookup in Hin as [i Hi].
      destruct (Forall2_lookup_l _ _ _ _ _ Hall Hi) as (row & _ & Hsome).
      congruence. }
    exists records, r, w2, {| pending := rest; current := Some bad;
                              closeErr := None; closed := S (closed curm) |}.
    split.
    { rewrite Hrun.
      destruct (k - length good); cbn [for_await gen_next]; rewrite Hstep;
        rewrite app_nil_r; reflexivity. }
    split.
    { eapply Forall2_impl; [exact Hall|]. intros r' row' Hr'. simpl.
      rewrite lookup_insert_ne; [assumption|]. intros <-. congruence. }
    split; [exact Hnotin|].
    split; [simpl; apply lookup_insert_eq|].
    split.
    { simpl. rewrite Htrace, <- !app_assoc. reflexivity. }
    split; [simpl; rewrite Hcursors, insert_insert_eq; reflexivity|].
    split; [reflexivity|]. simpl. rewrite Hclosed. reflexivity.
Qed.

End TraversalProperties.

(** *** Footprints of the operations *)

Ltac unfold_steps :=
  unfold insert, update, delete, selectOne, selectMany_open, selectMany_loop,
    toRecord, resolveSelect,
    sqlSource_getInsertSQL, sqlSource_getUpdateSQL, sqlSource_getDeleteSQL,
    sqlSource_getSelectSQL, Context_require_getDbApi,
    mapper_getInsertParams, mapper_getUpdateParams, mapper_getDeleteParams,
    mapper_create, mapper_load, mapper_setKey,
    db_query, db_exec, rows_next, rows_row, rows_close.

Section FootprintProperties.

Context {TRecord : Type} `{!Inhabited TRecord}.
Variable this : SqlAdapterBase TRecord.

#[global] Instance same_heap_preorder : PreOrder (@same_heap TRecord).
Proof.
  split; [intros w; reflexivity|].
  intros w1 w2 w3 H12 H23. unfold same_heap in *. congruence.
Qed.

#[global] Instance heap_outside_preorder record :
  PreOrder (@heap_outside TRecord record).
Proof.
  split; [intros w l Hl; reflexivity|].
  intros w1 w2 w3 H12 H23 l Hl. rewrite H23, H12 by assumption. reflexivity.
Qed.

#[global] Instance heap_extends_preorder : PreOrder (@heap_extends TRecord).
Proof.
  split; [intros w l v Hl; assumption|].
  intros w1 w2 w3 H12 H23 l v Hl. auto.
Qed.

#[global] Instance calls_only_preorder allowed :
  PreOrder (@calls_only TRecord allowed).
Proof.
  split; [intros w; exists []; rewrite app_nil_r; auto|].
  intros w1 w2 w3 (e1 & H1 & A1) (e2 & H2 & A2). exists (e1 ++ e2).
  rewrite H2, H1, <- app_assoc, forallb_app, A1, A2. auto.
Qed.

Lemma ws_bind {A B} (R : World TRecord -> World TRecord -> Prop)
    `{!Transitive R} (m : M A) (k : A -> M B) :
  world_step R m -> (forall a, world_step R (k a)) -> world_step R (bind m k).
Proof.
  intros Hm Hk w. unfold bind. specialize (Hm w).
  destruct (m w) as [[e|a] w1]; simpl in *; [exact Hm|].
  etransitivity; [exact Hm|apply Hk].
Qed.

Lemma ws_try_finally {A} (R : World TRecord -> World TRecord -> Prop)
    `{!Transitive R} (body : M A) (fin : M unit) :
  world_step R body -> world_step R fin -> world_step R (try_finally body fin).
Proof.
  intros Hbody Hfin w. unfold try_finally. specialize (Hbody w).
  destruct (body w) as [r w1]; simpl in *. specialize (Hfin w1).
  destruct (fin w1) as [[e|u] w2]; simpl in *; etransitivity; eauto.
Qed.

Lemma ws_diag {A} (R : World TRecord -> World TRecord -> Prop)
    (body : World TRecord -> M A) :
  (forall w0, world_step R (body w0)) -> world_step R (fun w => body w w).
Proof. intros H w. apply H. Qed.

Lemma ws_unchanged {B} (R : World TRecord -> World TRecord -> Prop)
    `{!Reflexive R} (f : World TRecord -> B * World TRecord) :
  (forall w, (f w).2 = w) -> world_step R f.
Proof. intros H w. rewrite H. reflexivity. Qed.
Lemma ws_weaken {B} (R R' : World TRecord -> World TRecord -> Prop)
    (f : World TRecord -> B * World TRecord) :
  (forall w w', R w w' -> R' w w') -> world_step R f -> world_step R' f.
Proof. intros Himpl Hf w. apply Himpl, Hf. Qed.

(** The steps of the generator, from those of its parts. *)
Lemma ws_resume (R : World TRecord -> World TRecord -> Prop) `{!PreOrder R}
    (rows : nat) :
  world_step R (selectMany_loop this rows) ->
  world_step R (rows_close rows) ->
  world_step R (selectMany_resume this rows).
Proof.
  intros Hloop Hclose w. unfold selectMany_resume. specialize (Hloop w).
  destruct (selectMany_loop this rows w) as [[e|[r|]] w1]; simpl in *;
    [|exact Hloop|];
    unfold try_finally, bind, lift, ret; simpl; specialize (Hclose w1);
    destruct (rows_close rows w1) as [[e'|u] w2]; simpl in *;
    etransitivity; eauto.
Qed.

Lemma ws_gen_step (R : World TRecord -> World TRecord -> Prop) `{!PreOrder R}
    (rq : Request) (g : Generator) :
  (forall ctx sqlOrParams ps, g = SuspendedStart ctx sqlOrParams ps ->
     world_step R (selectMany_open this ctx sqlOrParams ps)) ->
  (forall rows, world_step R (selectMany_loop this rows)) ->
  (forall rows, world_step R (rows_close rows)) ->
  world_step R (gen_step this rq g).
Proof.
  intros Hopen Hloop Hclose w.
  destruct rq as [| |e]; destruct g as [ctx sp ps|rows|]; simpl;
    try reflexivity.
  - specialize (Hopen ctx sp ps eq_refl w).
    destruct (selectMany_open this ctx sp ps w) as [[e|rows] w1]; simpl in *;
      [exact Hopen|].
    etransitivity; [exact Hopen|]. apply ws_resume; auto.
  - apply ws_resume; auto.
  - unfold try_finally, ret. simpl. specialize (Hclose rows w).
    destruct (rows_close rows w) as [[e'|u] w1]; exact Hclose.
  - unfold try_finally, throw. simpl. specialize (Hclose rows w).
    destruct (rows_close rows w) as [[e'|u] w1]; exact Hclose.
Qed.

Lemma gen_step_started (rq : Request) (g : Generator) (w : World TRecord) :
  has_started (gen_step this rq g w).1.1.
Proof.
  assert (forall rows w0, has_started (selectMany_resume this rows w0).1.1)
    as Hresume.
  { intros rows w0. unfold selectMany_resume.
    destruct (selectMany_loop this rows w0) as [[e|[r|]] w1]; simpl; auto;
      destruct (try_finally _ _ w1); exact I. }
  destruct rq as [| |e]; destruct g as [ctx sp ps|rows|]; simpl;
    try exact I; try apply Hresume;
    try (destruct (try_finally _ _ w); exact I).
  destruct (selectMany_open this ctx sp ps w) as [[e|rows] w1]; simpl;
    [exact I|apply Hresume].
Qed.

Lemma started_generator_of (sqlOrParams : SqlOrParams) (g : Generator) :
  has_started g -> generator_of sqlOrParams g.
Proof. destruct g; simpl; tauto. Qed.

Lemma gen_run_ws (R : World TRecord -> World TRecord -> Prop) `{!PreOrder R}
    (P : Generator -> Prop) :
  (forall rq g, P g -> world_step R (gen_step this rq g)) ->
  (forall g, has_started g -> P g) ->
  forall rqs g w, P g -> R w (gen_run this rqs g w).2.
Proof.
  intros Hstep Hstarted rqs.
  induction rqs as [|rq rqs IH]; intros g w Hg; simpl; [reflexivity|].
  pose proof (Hstep rq g Hg w) as H1.
  pose proof (gen_step_started rq g w) as Hp.
  destruct (gen_step this rq g w) as [[g1 r] w1]; simpl in *.
  etransitivity; [exact H1|]. apply IH, Hstarted, Hp.
Qed.

Lemma for_await_ws (R : World TRecord -> World TRecord -> Prop) `{!PreOrder R}
    (P : Generator -> Prop) :
  (forall rq g, P g -> world_step R (gen_step this rq g)) ->
  (forall g, has_started g -> P g) ->
  forall k g w, P g -> R w (for_await this k g w).2.
Proof.
  intros Hstep Hstarted k.
  induction k as [|k IH]; intros g w Hg; simpl;
    pose proof (Hstep ReqNext g Hg w) as H1;
    pose proof (gen_step_started ReqNext g w) as Hp; simpl in H1, Hp;
    destruct (gen_next this g w) as [[g1 [e|[v|]]] w1]; simpl in *;
    try exact H1.
  - pose proof (Hstep ReqReturn g1 (Hstarted _ Hp) w1) as H2. simpl in H2.
    destruct (gen_return g1 w1) as [[g2 [e|r]] w2]; simpl in *;
      etransitivity; eauto.
  - specialize (IH g1 w1 (Hstarted _ Hp)).
    destruct (for_await this k g1 w1) as [[[rs err] g2] w2]; simpl in *.
    etransitivity; eauto.
Qed.

End FootprintProperties.

(** Walks a computation made of [bind], [try_finally] and case analyses down
    to its basic actions, which [leaf] has to settle. *)
Ltac walk leaf :=
  cbv beta;
  lazymatch goal with
  | |- @world_step _ _ _ (bind _ _) =>
      apply ws_bind; [typeclasses eauto|walk leaf|intros ?; walk leaf]
  | |- @world_step _ _ _ (try_finally _ _) =>
      apply ws_try_finally; [typeclasses eauto|walk leaf|walk leaf]
  | |- @world_step _ _ _ (match ?x with _ => _ end) =>
      destruct x eqn:?; walk leaf
  | |- _ => leaf
  end.

Ltac basic_action :=
  intros ?; unfold emit, lift, ret, throw, set_heap, set_cursor, get_fields,
    get_cursor, bind; cbv zeta; simpl; repeat case_match; simpl.

Ltac calls_leaf :=
  basic_action;
  first
    [ exists []; split; [symmetry; apply app_nil_r|reflexivity]
    | eexists; split;
      [reflexivity|];
      simpl;
      unfold insert_call, update_call, delete_call, select_call, cursor_call,
        no_executor_call;
      simpl;
      repeat match goal with
             | H : hasMappingFlag _ _ = _ |- _ => rewrite H
             end;
      reflexivity ].

Ltac heap_leaf :=
  basic_action;
  first
    [ reflexivity
    | intros ? ?; simpl; rewrite ?lookup_insert_ne by congruence; reflexivity
    | intros ? ? ?; simpl; assumption ].

Section FootprintTheorems.

Context {TRecord : Type} `{!Inhabited TRecord}.
Variable this : SqlAdapterBase TRecord.

(** X9: the calls of the write paths, by generation mode, for all
    collaborators: [insert] queries and uses a cursor only in a generated
    mode, calls [load] only with [generatedOnInsert], [setKey] only with
    [generatedId] and without [generatedOnInsert], [exec] only with neither;
    [update] queries and loads only with [generatedOnUpdate], execs only
    without it, and never calls [setKey]; [delete] never queries and never
    calls [load] or [setKey].  None of them makes a record or asks for the
    statement of another operation. *)
Theorem write_paths_call_by_mode (ctx : IContext) (record : loc)
    (w : World TRecord) :
  calls_only (insert_call (flags (mapper this))) w (insert this ctx record w).2 /\
  calls_only (update_call (flags (mapper this))) w (update this ctx record w).2 /\
  calls_only delete_call w (delete this ctx record w).2.
Proof.
  split; [|split].
  - revert w. change (world_step (calls_only (insert_call (flags (mapper this))))
                        (insert this ctx record)).
    unfold_steps. walk calls_leaf.
  - revert w. change (world_step (calls_only (update_call (flags (mapper this))))
                        (update this ctx record)).
    unfold_steps. walk calls_leaf.
  - revert w. change (world_step (calls_only delete_call)
                        (delete this ctx record)).
    unfold_steps. walk calls_leaf.
Qed.

Lemma selects_call_steps (sqlOrParams : SqlOrParams) (rq : Request)
    (g : Generator) :
  generator_of sqlOrParams g ->
  world_step (TRecord := TRecord) (calls_only (select_call sqlOrParams))
    (gen_step this rq g).
Proof.
  intros Hg. apply ws_gen_step; [typeclasses eauto| | |].
  - intros ctx sp ps ->. simpl in Hg. subst sp.
    unfold_steps. destruct sqlOrParams; walk calls_leaf.
  - intros rows. unfold_steps. walk calls_leaf.
  - intros rows. unfold_steps. walk calls_leaf.
Qed.

(** X10: for all collaborators, [selectOne] and a generator of [selectMany]
    under any requests only resolve the context, query, work on the cursor
    and make and load records: they never call [exec], [setKey] or a
    parameter extractor, never ask for an insert, update or delete
    statement, and ask for the select statement only when called without
    SQL text. *)
Theorem selects_call_by_shape (ctx : IContext) (sqlOrParams : SqlOrParams)
    (ps : ParamMap) (w : World TRecord) :
  calls_only (select_call sqlOrParams) w
    (selectOne this ctx sqlOrParams ps w).2 /\
  (forall rqs,
     calls_only (select_call sqlOrParams) w
       (gen_run this rqs (selectMany ctx sqlOrParams ps) w).2) /\
  (forall k,
     calls_only (select_call sqlOrParams) w
       (for_await this k (selectMany ctx sqlOrParams ps) w).2).
Proof.
  split; [|split].
  - revert w. change (world_step (calls_only (select_call sqlOrParams))
                        (selectOne this ctx sqlOrParams ps)).
    unfold_steps. destruct sqlOrParams; walk calls_leaf.
  - intros rqs.
    apply (gen_run_ws this _ (generator_of sqlOrParams));
      [apply selects_call_steps|apply started_generator_of|reflexivity].
  - intros k.
    apply (for_await_ws this _ (generator_of sqlOrParams));
      [apply selects_call_steps|apply started_generator_of|reflexivity].
Qed.

(** X14: for all collaborators, [insert] and [update] change no record
    object other than the one they are given and make none, and [delete]
    changes no record object at all. *)
Theorem writes_touch_only_their_record (ctx : IContext) (record : loc)
    (w : World TRecord) :
  heap_outside record w (insert this ctx record w).2 /\
  heap_outside record w (update this ctx record w).2 /\
  same_heap w (delete this ctx record w).2.
Proof.
  split; [|split].
  - revert w. change (world_step (heap_outside record) (insert this ctx record)).
    unfold_steps. walk heap_leaf.
  - revert w. change (world_step (heap_outside record) (update this ctx record)).
    unfold_steps. walk heap_leaf.
  - revert w. change (world_step same_heap (delete this ctx record)).
    unfold_steps. walk heap_leaf.
Qed.

Lemma toRecord_extends (row : list Value) :
  world_step (TRecord := TRecord) heap_extends (toRecord this row).
Proof.
  intros w l fields Hl.
  assert (l <> fresh (dom (heap w))) as Hne.
  { intros ->. pose proof (is_fresh (dom (heap w))) as Hf.
    apply Hf, elem_of_dom. eauto. }
  unfold toRecord, mapper_create, mapper_load, bind, lift, emit, set_heap,
    get_fields, ret. simpl.
  destruct (create (mapper this)) as [e|blank]; simpl; [assumption|].
  rewrite lookup_total_insert_eq.
  destruct (load (mapper this) row blank) as [e|fields']; simpl;
    rewrite ?lookup_insert_ne by congruence; assumption.
Qed.

Ltac extends_leaf :=
  first [ apply toRecord_extends | heap_leaf ].

Ltac unfold_select_steps :=
  unfold selectOne, selectMany_open, selectMany_loop, resolveSelect,
    sqlSource_getSelectSQL, Context_require_getDbApi,
    db_query, rows_next, rows_row, rows_close.

Lemma selects_extend_steps (rq : Request) (g : Generator) :
  world_step (TRecord := TRecord) heap_extends (gen_step this rq g).
Proof.
  apply ws_gen_step; [typeclasses eauto| | |].
  - intros ctx sp ps _. unfold_select_steps. destruct sp; walk extends_leaf.
  - intros rows. unfold_select_steps. walk extends_leaf.
  - intros rows. unfold_select_steps. walk extends_leaf.
Qed.

(** X15: for all collaborators, [selectOne] and a generator of [selectMany]
    under any requests leave every record object that exists as it is: the
    records they load are objects they made. *)
Theorem selects_keep_existing_records (ctx : IContext)
    (sqlOrParams : SqlOrParams) (ps : ParamMap) (w : World TRecord) :
  heap_extends w (selectOne this ctx sqlOrParams ps w).2 /\
  (forall rqs,
     heap_extends w (gen_run this rqs (selectMany ctx sqlOrParams ps) w).2) /\
  (forall k,
     heap_extends w (for_await this k (selectMany ctx sqlOrParams ps) w).2).
Proof.
  split; [|split].
  - revert w. change (world_step heap_extends (selectOne this ctx sqlOrParams ps)).
    unfold_select_steps. destruct sqlOrParams; walk extends_leaf.
  - intros rqs.
    apply (gen_run_ws this _ (fun _ => True)); auto using selects_extend_steps.
  - intros k.
    apply (for_await_ws this _ (fun _ => True)); auto using selects_extend_steps.
Qed.

(** *** At most one call to the executor *)

Lemma executor_calls_app (evs1 evs2 : list Event) :
  executor_calls (evs1 ++ evs2) = executor_calls evs1 + executor_calls evs2.
Proof.
  induction evs1 as [|e evs1 IH]; simpl; [reflexivity|]. rewrite IH. lia.
Qed.

Lemma no_executor_calls (evs : list Event) :
  forallb no_executor_call evs = true -> executor_calls evs = 0.
Proof.
  induction evs as [|e evs IH]; simpl; [reflexivity|].
  intros [He Hevs]%andb_prop. rewrite (IH Hevs).
  unfold no_executor_call in He. destruct (is_executor_call e);
    [discriminate|reflexivity].
Qed.

Lemma at_most_of_none (n : nat) (w w' : World TRecord) :
  calls_only no_executor_call w w' -> executor_calls_at_most n w w'.
Proof.
  intros (evs & Htrace & Hevs). exists evs. split; [assumption|].
  rewrite (no_executor_calls evs Hevs). lia.
Qed.

Lemma at_most_after (n : nat) (w w1 w2 : World TRecord) :
  calls_only no_executor_call w w1 ->
  executor_calls_at_most n w1 w2 ->
  executor_calls_at_most n w w2.
Proof.
  intros (e1 & H1 & A1) (e2 & H2 & A2). exists (e1 ++ e2).
  rewrite H2, H1, <- app_assoc, executor_calls_app, (no_executor_calls e1 A1).
  split; [reflexivity|lia].
Qed.

Lemma at_most_then (n : nat) (w w1 w2 : World TRecord) :
  executor_calls_at_most n w w1 ->
  calls_only no_executor_call w1 w2 ->
  executor_calls_at_most n w w2.
Proof.
  intros (e1 & H1 & A1) (e2 & H2 & A2). exists (e1 ++ e2).
  rewrite H2, H1, <- app_assoc, executor_calls_app, (no_executor_calls e2 A2).
  split; [reflexivity|lia].
Qed.

Lemma ws_after {A B} (n : nat) (m : M A) (k : A -> M B) :
  world_step (TRecord := TRecord) (calls_only no_executor_call) m ->
  (forall a, world_step (executor_calls_at_most n) (k a)) ->
  world_step (executor_calls_at_most n) (bind m k).
Proof.
  intros Hm Hk w. unfold bind. specialize (Hm w).
  destruct (m w) as [[e|a] w1]; simpl in *.
  - apply at_most_of_none. exact Hm.
  - eapply at_most_after; [exact Hm|apply Hk].
Qed.

Lemma ws_then {A B} (n : nat) (m : M A) (k : A -> M B) :
  world_step (TRecord := TRecord) (executor_calls_at_most n) m ->
  (forall a, world_step (calls_only no_executor_call) (k a)) ->
  world_step (executor_calls_at_most n) (bind m k).
Proof.
  intros Hm Hk w. unfold bind. specialize (Hm w).
  destruct (m w) as [[e|a] w1]; simpl in *; [exact Hm|].
  eapply at_most_then; [exact Hm|apply Hk].
Qed.

Lemma ws_none {B} (n : nat) (f : World TRecord -> B * World TRecord) :
  world_step (calls_only no_executor_call) f ->
  world_step (executor_calls_at_most n) f.
Proof. apply ws_weaken. apply at_most_of_none. Qed.

Lemma db_query_once db ctx sql args :
  world_step (TRecord := TRecord) (executor_calls_at_most 1)
    (db_query db ctx sql args).
Proof.
  intros w. unfold db_query, bind, emit, lift, set_cursor, ret. simpl.
  destruct (dbQuery db sql args); simpl; eexists; split; try reflexivity;
    simpl; lia.
Qed.

Lemma db_exec_once db ctx sql args :
  world_step (TRecord := TRecord) (executor_calls_at_most 1)
    (db_exec db ctx sql args).
Proof.
  intros w. unfold db_exec, bind, emit, throw, ret. simpl.
  destruct (dbExec db sql args); simpl; eexists; split; try reflexivity;
    simpl; lia.
Qed.

Ltac quiet := unfold_steps; walk calls_leaf.

Lemma insert_once ctx record :
  world_step (executor_calls_at_most 1) (insert this ctx record).
Proof.
  unfold insert. apply ws_after; [quiet|].
  intros [sql|]; [|apply ws_none; quiet].
  apply ws_after; [quiet|]. intros db.
  apply ws_after; [quiet|]. intros params.
  destruct (hasMappingFlag _ MappingFlags.generatedOnInsert);
    [|destruct (hasMappingFlag _ MappingFlags.generatedId)].
  - apply ws_then; [apply db_query_once|intros rows; quiet].
  - apply ws_then; [apply db_query_once|intros rows; quiet].
  - apply db_exec_once.
Qed.

Lemma update_once ctx record :
  world_step (executor_calls_at_most 1) (update this ctx record).
Proof.
  unfold update. apply ws_after; [quiet|].
  intros [sql|]; [|apply ws_none; quiet].
  apply ws_after; [quiet|]. intros db.
  apply ws_after; [quiet|]. intros params.
  destruct (hasMappingFlag _ MappingFlags.generatedOnUpdate).
  - apply ws_then; [apply db_query_once|intros rows; quiet].
  - apply db_exec_once.
Qed.

Lemma delete_once ctx record :
  world_step (executor_calls_at_most 1) (delete this ctx record).
Proof.
  unfold delete. apply ws_after; [quiet|].
  intros [sql|]; [|apply ws_none; quiet].
  apply ws_after; [quiet|]. intros db.
  apply ws_after; [quiet|]. intros params.
  apply db_exec_once.
Qed.

Lemma selectMany_open_once ctx sqlOrParams ps :
  world_step (executor_calls_at_most 1)
    (selectMany_open this ctx sqlOrParams ps).
Proof.
  unfold selectMany_open.
  apply ws_after; [unfold_steps; destruct sqlOrParams; walk calls_leaf|].
  intros [sql ps']. apply ws_after; [quiet|]. intros db.
  apply db_query_once.
Qed.

Lemma selectOne_once ctx sqlOrParams ps :
  world_step (executor_calls_at_most 1) (selectOne this ctx sqlOrParams ps).
Proof.
  unfold selectOne.
  apply ws_after; [unfold_steps; destruct sqlOrParams; walk calls_leaf|].
  intros [sql ps']. apply ws_after; [quiet|]. intros db.
  apply ws_then; [apply db_query_once|intros rows; quiet].
Qed.

Lemma started_steps_quiet (rq : Request) (g : Generator) :
  has_started g ->
  world_step (TRecord := TRecord) (calls_only no_executor_call)
    (gen_step this rq g).
Proof.
  intros Hg. apply ws_gen_step; [typeclasses eauto| | |].
  - intros ctx sp ps ->. destruct Hg.
  - intros rows. quiet.
  - intros rows. quiet.
Qed.

Lemma first_step_once (rq : Request) ctx sqlOrParams ps :
  world_step (executor_calls_at_most 1)
    (gen_step this rq (SuspendedStart ctx sqlOrParams ps)).
Proof.
  intros w. destruct rq as [| |e]; simpl;
    try (apply at_most_of_none; reflexivity).
  pose proof (selectMany_open_once ctx sqlOrParams ps w) as Hopen.
  destruct (selectMany_open this ctx sqlOrParams ps w) as [[e|rows] w1];
    simpl in *; [exact Hopen|].
  eapply at_most_then; [exact Hopen|].
  apply (started_steps_quiet ReqNext (SuspendedYield rows) I).
Qed.

(** X11: no operation calls the executor twice: for all collaborators and
    whatever fails, [insert], [update], [delete] and [selectOne] make at
    most one [query] or [exec] call, and so does a generator of [selectMany]
    over its whole life, under any sequence of requests. *)
Theorem one_executor_call_at_most (ctx : IContext) (record : loc)
    (sqlOrParams : SqlOrParams) (ps : ParamMap) (w : World TRecord) :
  executor_calls_at_most 1 w (insert this ctx record w).2 /\
  executor_calls_at_most 1 w (update this ctx record w).2 /\
  executor_calls_at_most 1 w (delete this ctx record w).2 /\
  executor_calls_at_most 1 w (selectOne this ctx sqlOrParams ps w).2 /\
  (forall rqs,
     executor_calls_at_most 1 w
       (gen_run this rqs (selectMany ctx sqlOrParams ps) w).2) /\
  (forall k,
     executor_calls_at_most 1 w
       (for_await this k (selectMany ctx sqlOrParams ps) w).2).
Proof.
  split; [apply insert_once|]. split; [apply update_once|].
  split; [apply delete_once|]. split; [apply selectOne_once|].
  split.
  - intros [|rq rqs]; simpl; [apply at_most_of_none; reflexivity|].
    pose proof (first_step_once rq ctx sqlOrParams ps w) as H1.
    pose proof (gen_step_started this rq (selectMany ctx sqlOrParams ps) w)
      as Hp.
    unfold selectMany in *.
    destruct (gen_step this rq (SuspendedStart ctx sqlOrParams ps) w)
      as [[g1 r] w1]; simpl in *.
    eapply at_most_then; [exact H1|].
    apply (gen_run_ws this _ has_started);
      auto using started_steps_quiet.
  - intros k.
    pose proof (first_step_once ReqNext ctx sqlOrParams ps w) as H1.
    pose proof (gen_step_started this ReqNext (selectMany ctx sqlOrParams ps) w)
      as Hp.
    unfold selectMany in *. cbn [gen_step] in H1, Hp.
    destruct k as [|k]; cbn [for_await];
      destruct (gen_next this (SuspendedStart ctx sqlOrParams ps) w)
        as [[g1 [e|[v|]]] w1]; simpl in *; try exact H1.
    + pose proof (started_steps_quiet ReqReturn g1 Hp w1) as H2. simpl in H2.
      destruct (gen_return g1 w1) as [[g2 [e|r]] w2]; simpl in *;
        eapply at_most_then; eauto.
    + pose proof (for_await_ws this (calls_only no_executor_call) has_started
                    started_steps_quiet (fun g H => H) k g1 w1 Hp) as H2.
      destruct (for_await this k g1 w1) as [[[rs err] g2] w2]; simpl in *.
      eapply at_most_then; eauto.
Qed.

(** *** The calls of a select, in order *)

Lemma selectMany_open_trace (ctx : IContext) (sqlOrParams : SqlOrParams)
    (ps : ParamMap) (db : DbApi) (w : World TRecord) :
  ctxDbApi ctx = Some db ->
  trace (selectMany_open this ctx sqlOrParams ps w).2 =
    trace w ++ query_events this ctx db sqlOrParams ps.
Proof.
  intros Hdb. unfold selectMany_open, bind at 1. rewrite resolveSelect_run.
  unfold query_events. unfold_calls. run.
  destruct (dbQuery db _ _); simpl; rewrite <- ?app_assoc; reflexivity.
Qed.

Lemma started_steps_on_cursor (rq : Request) (g : Generator) :
  has_started g ->
  world_step (TRecord := TRecord) (calls_only cursor_call) (gen_step this rq g).
Proof.
  intros Hg. apply ws_gen_step; [typeclasses eauto| | |].
  - intros ctx sp ps ->. destruct Hg.
  - intros rows. quiet.
  - intros rows. quiet.
Qed.

Lemma after_query (w w1 w2 : World TRecord) (issued : list Event) :
  trace w1 = trace w ++ issued ->
  calls_only cursor_call w1 w2 ->
  exists more,
    trace w2 = trace w ++ issued ++ more /\ forallb cursor_call more = true.
Proof.
  intros H1 (more & H2 & Hmore). exists more.
  rewrite H2, H1, <- app_assoc. auto.
Qed.

Lemma first_next_after_query (ctx : IContext) (sqlOrParams : SqlOrParams)
    (ps : ParamMap) (db : DbApi) (w : World TRecord) :
  ctxDbApi ctx = Some db ->
  exists more,
    trace (gen_next this (SuspendedStart ctx sqlOrParams ps) w).2 =
      trace w ++ query_events this ctx db sqlOrParams ps ++ more /\
    forallb cursor_call more = true.
Proof.
  intros Hdb.
  pose proof (selectMany_open_trace ctx sqlOrParams ps db w Hdb) as Hopen.
  cbn [gen_next].
  destruct (selectMany_open this ctx sqlOrParams ps w) as [[e|rows] w1];
    simpl in Hopen |- *.
  - eapply after_query; [exact Hopen|reflexivity].
  - eapply after_query; [exact Hopen|].
    apply (started_steps_on_cursor ReqNext (SuspendedYield rows) I).
Qed.

(** X12: the calls of a select, in order (the context carrying a database
    API): [selectOne] and every [for await] traversal of [selectMany] first
    settle the statement (asking the statement source only when no SQL text
    is given; a given text is used as it is), look the executor up, and
    issue one query with that statement and the parameters of the mapping;
    whatever happens after that, they only advance and close the cursor and
    make and load records. *)
Theorem select_calls_in_order (ctx : IContext) (sqlOrParams : SqlOrParams)
    (ps : ParamMap) (db : DbApi) (w : World TRecord) :
  ctxDbApi ctx = Some db ->
  (exists more,
     trace (selectOne this ctx sqlOrParams ps w).2 =
       trace w ++ query_events this ctx db sqlOrParams ps ++ more /\
     forallb cursor_call more = true) /\
  (forall k, exists more,
     trace (for_await this k (selectMany ctx sqlOrParams ps) w).2 =
       trace w ++ query_events this ctx db sqlOrParams ps ++ more /\
     forallb cursor_call more = true).
Proof.
  intros Hdb. split.
  - rewrite selectOne_from_open.
    pose proof (selectMany_open_trace ctx sqlOrParams ps db w Hdb) as Hopen.
    destruct (selectMany_open this ctx sqlOrParams ps w) as [[e|rows] w1];
      simpl in Hopen |- *.
    + eapply after_query; [exact Hopen|reflexivity].
    + eapply after_query; [exact Hopen|].
      revert w1 Hopen. intros w1 _. revert w1.
      change (world_step (calls_only cursor_call)
                (try_finally (selectMany_loop this rows) (rows_close rows))).
      quiet.
  - intros k.
    destruct (first_next_after_query ctx sqlOrParams ps db w Hdb)
      as (more & Htrace & Hmore).
    pose proof (gen_step_started this ReqNext
                  (SuspendedStart ctx sqlOrParams ps) w) as Hp.
    cbn [gen_step] in Hp. unfold selectMany.
    assert (forall w2, calls_only cursor_call
                         (gen_next this (SuspendedStart ctx sqlOrParams ps) w).2
                         w2 ->
            exists more',
              trace w2 = trace w ++ query_events this ctx db sqlOrParams ps ++
                         more' /\
              forallb cursor_call more' = true) as Hrest.
    { intros w2 (evs & H2 & Hevs). exists (more ++ evs).
      rewrite H2, Htrace, <- !app_assoc, forallb_app, Hmore, Hevs. auto. }
    destruct k as [|k]; cbn [for_await];
      destruct (gen_next this (SuspendedStart ctx sqlOrParams ps) w)
        as [[g1 [e|[v|]]] w1]; simpl in *; try (apply Hrest; reflexivity).
    + pose proof (started_steps_on_cursor ReqReturn g1 Hp w1) as H2.
      simpl in H2.
      destruct (gen_return g1 w1) as [[g2 [e|r]] w2]; simpl in *;
        apply Hrest, H2.
    + pose proof (for_await_ws this (calls_only cursor_call) has_started
                    started_steps_on_cursor (fun g H => H) k g1 w1 Hp) as H2.
      destruct (for_await this k g1 w1) as [[[rs err] g2] w2]; simpl in *.
      apply Hrest, H2.
Qed.

(** X13: [selectAll] is [selectMany] over the empty mapping: a traversal
    asks the statement source for the select statement over no column and
    queries with it and no parameter; after that it only works on the cursor
    and the records. *)
Theorem selectAll_selects_without_filter (ctx : IContext) (db : DbApi)
    (k : nat) (w : World TRecord) :
  ctxDbApi ctx = Some db ->
  exists more,
    trace (for_await this k (selectAll ctx) w).2 =
      trace w ++
      [EvGetSelectSQL []; EvRequireDbApi (ctxId ctx);
       EvQuery (dbId db) (ctxId ctx) (getSelectSQL (sqlSource this) []) []] ++
      more /\
    forallb cursor_call more = true.
Proof.
  intros Hdb. unfold selectAll, selectMany.
  destruct (first_next_after_query ctx (IsParams (Some [])) None db w Hdb)
    as (more & Htrace & Hmore).
  pose proof (gen_step_started this ReqNext
                (SuspendedStart ctx (IsParams (Some [])) None) w) as Hp.
  cbn [gen_step] in Hp.
  assert (forall w2, calls_only cursor_call
                       (gen_next this
                          (SuspendedStart ctx (IsParams (Some [])) None) w).2
                       w2 ->
          exists more',
            trace w2 = trace w ++
              [EvGetSelectSQL []; EvRequireDbApi (ctxId ctx);
               EvQuery (dbId db) (ctxId ctx)
                 (getSelectSQL (sqlSource this) []) []] ++ more' /\
            forallb cursor_call more' = true) as Hrest.
  { intros w2 (evs & H2 & Hevs). exists (more ++ evs).
    rewrite H2, Htrace, forallb_app, Hmore, Hevs.
    unfold query_events. simpl. rewrite <- !app_assoc. auto. }
  destruct k as [|k]; cbn [for_await];
    destruct (gen_next this (SuspendedStart ctx (IsParams (Some [])) None) w)
      as [[g1 [e|[v|]]] w1]; simpl in *; try (apply Hrest; reflexivity).
  - pose proof (started_steps_on_cursor ReqReturn g1 Hp w1) as H2.
    simpl in H2.
    destruct (gen_return g1 w1) as [[g2 [e|r]] w2]; simpl in *;
      apply Hrest, H2.
  - pose proof (for_await_ws this (calls_only cursor_call) has_started
                  started_steps_on_cursor (fun g H => H) k g1 w1 Hp) as H2.
    destruct (for_await this k g1 w1) as [[[rs err] g2] w2]; simpl in *.
    apply Hrest, H2.
Qed.

End FootprintTheorems.

(** ** More theorems at sample instances *)

Import Faulty.

Lemma update_plain_execs_once_witness :
  update (adapter MappingFlags.generatedId) (sampleCtx []) 0 w0 =
    (inr tt,
     {| trace := [EvGetUpdateSQL; EvRequireDbApi 1; EvGetUpdateParams 0;
                  EvExec 7 1 "UPDATE ..." [VStr "ann"; VNull]];
        heap := heap w0; cursors := cursors w0 |}).
Proof.
  exact (update_plain_execs_once (adapter MappingFlags.generatedId)
           (sampleCtx []) 0 w0 "UPDATE ..." (sampleDb []) [VStr "ann"; VNull]
           eq_refl eq_refl eq_refl eq_refl).
Defined.

Lemma params_failure_stops_before_executor_witness :
  insert (noParamsAdapter MappingFlags.generatedId) (sampleCtx []) 0 w0 =
    (inl badRecord,
     {| trace := [EvGetInsertSQL; EvRequireDbApi 1; EvGetInsertParams 0];
        heap := heap w0; cursors := cursors w0 |}) /\
  delete (noParamsAdapter MappingFlags.none) (sampleCtx []) 0 w0 =
    (inl badRecord,
     {| trace := [EvGetDeleteSQL; EvRequireDbApi 1; EvGetDeleteParams 0];
        heap := heap w0; cursors := cursors w0 |}).
Proof.
  split.
  - exact (proj1 (params_failure_stops_before_executor
                    (noParamsAdapter MappingFlags.generatedId) (sampleCtx [])
                    0 w0 (sampleDb []) badRecord eq_refl)
             "INSERT ... RETURNING id" eq_refl eq_refl).
  - exact (proj2 (proj2 (params_failure_stops_before_executor
                           (noParamsAdapter MappingFlags.none) (sampleCtx [])
                           0 w0 (sampleDb []) badRecord eq_refl))
             "DELETE ..." eq_refl eq_refl).
Defined.

Lemma query_failure_opens_nothing_witness :
  insert (adapter MappingFlags.generatedId) (ctxOf downDb) 0 w0 =
    (inl lost,
     {| trace := [EvGetInsertSQL; EvRequireDbApi 3; EvGetInsertParams 0;
                  EvQuery 8 3 "INSERT ... RETURNING id" [VStr "ann"]];
        heap := heap w0; cursors := cursors w0 |}) /\
  selectOne (adapter MappingFlags.none) (ctxOf downDb) byStatus None w0 =
    (inl lost,
     {| trace := [EvGetSelectSQL ["status"]; EvRequireDbApi 3;
                  EvQuery 8 3 "SELECT,status" [VStr "active"]];
        heap := heap w0; cursors := cursors w0 |}).
Proof.
  split.
  - exact (proj1 (query_failure_opens_nothing (adapter MappingFlags.generatedId)
                    (ctxOf downDb) 0 byStatus None w0 downDb lost eq_refl)
             "INSERT ... RETURNING id" [VStr "ann"] (or_intror eq_refl)
             eq_refl eq_refl eq_refl).
  - exact (proj1 (proj2 (proj2 (query_failure_opens_nothing
                                  (adapter MappingFlags.none) (ctxOf downDb) 0
                                  byStatus None w0 downDb lost eq_refl))
                    eq_refl)).
Defined.

Lemma next_failure_on_write_paths_witness :
  update (adapter MappingFlags.generatedOnUpdate)
    (ctxOf (scriptedDb [FetchFail lost])) 0 w0 =
    (inl lost,
     {| trace := [EvGetUpdateSQL; EvRequireDbApi 3; EvGetUpdateParams 0;
                  EvQuery 9 3 "UPDATE ..." [VStr "ann"; VNull];
                  EvNext 0; EvClose 0];
        heap := heap w0;
        cursors := {[ 0 := {| pending := []; current := None;
                              closeErr := None; closed := 1 |} ]} |}).
Proof.
  exact (proj2 (next_failure_on_write_paths
                  (adapter MappingFlags.generatedOnUpdate)
                  (ctxOf (scriptedDb [FetchFail lost])) 0 w0 "UPDATE ..."
                  (scriptedDb [FetchFail lost]) [VStr "ann"; VNull]
                  {| fetches := [FetchFail lost]; closeError := None |}
                  lost [] eq_refl eq_refl eq_refl eq_refl)
           eq_refl eq_refl eq_refl).
Defined.

Lemma selectOne_failure_propagates_witness :
  selectOne strictAdapter (ctxOf (scriptedDb [FetchRow [VNull]])) byStatus
    None w0 =
    (inl badRow,
     {| trace := [EvGetSelectSQL ["status"]; EvRequireDbApi 3;
                  EvQuery 9 3 "SELECT,status" [VStr "active"];
                  EvNext 0; EvCreate 1; EvLoad [VNull] 1; EvClose 0];
        heap := <[1 := (VUndefined, VUndefined)]> (heap w0);
        cursors := {[ 0 := {| pending := []; current := Some [VNull];
                              closeErr := None; closed := 1 |} ]} |}) /\
  selectOne noCreateAdapter (ctxOf (scriptedDb [FetchRow [VNum 42]])) byStatus
    None w0 =
    (inl badRecord,
     {| trace := [EvGetSelectSQL ["status"]; EvRequireDbApi 3;
                  EvQuery 9 3 "SELECT,status" [VStr "active"];
                  EvNext 0; EvCreate 1; EvClose 0];
        heap := heap w0;
        cursors := {[ 0 := {| pending := []; current := Some [VNum 42];
                              closeErr := None; closed := 1 |} ]} |}).
Proof.
  split.
  - exact (proj2 (proj2 (selectOne_failure_propagates strictAdapter
                           (ctxOf (scriptedDb [FetchRow [VNull]])) byStatus
                           None w0 (scriptedDb [FetchRow [VNull]])
                           {| fetches := [FetchRow [VNull]];
                              closeError := None |}
                           badRow eq_refl eq_refl eq_refl))
             [VNull] [] (VUndefined, VUndefined) eq_refl eq_refl eq_refl).
  - exact (proj1 (proj2 (selectOne_failure_propagates noCreateAdapter
                           (ctxOf (scriptedDb [FetchRow [VNum 42]])) byStatus
                           None w0 (scriptedDb [FetchRow [VNum 42]])
                           {| fetches := [FetchRow [VNum 42]];
                              closeError := None |}
                           badRecord eq_refl eq_refl eq_refl))
             [VNum 42] [] eq_refl eq_refl).
Defined.

Lemma selectMany_break_leaves_rows_witness :
  exists records w' cur',
    for_await (adapter MappingFlags.none) 0
      (selectMany (sampleCtx people) byStatus None) w0 =
      ((records, None), Completed, w') /\
    Forall2 (fun r row => heap w' !! r = Some (loadedFields row)) records
      [[VNum 42; VStr "bob"]] /\
    cursors w' = <[0 := cur']> (cursors w0) /\
    pending cur' = [FetchRow [VNum 43; VStr "cy"]] /\
    closed cur' = 1.
Proof.
  destruct (selectMany_break_leaves_rows (adapter MappingFlags.none)
              (sampleCtx people) byStatus None (sampleDb people)
              {| fetches := map FetchRow people; closeError := None |}
              [[VNum 42; VStr "bob"]] [FetchRow [VNum 43; VStr "cy"]]
              (VUndefined, VUndefined) loadedFields 0 w0
              eq_refl eq_refl eq_refl eq_refl eq_refl
              (fun _ _ => eq_refl) eq_refl)
    as (records & w' & cur' & Hrun & Hall & _ & Hcursors & Hpending & Hclosed).
  exists records, w', cur'. repeat split; assumption.
Defined.

Lemma selectMany_failure_mid_traversal_witness :
  exists records w',
    for_await strictAdapter 5
      (selectMany
         (ctxOf (scriptedDb [FetchRow [VNum 42; VStr "bob"]; FetchRow [VNull];
                             FetchRow [VNum 43; VStr "cy"]]))
         byStatus None) w0 =
      ((records, Some badRow), Completed, w') /\
    length records = 1.
Proof.
  destruct (selectMany_failure_mid_traversal strictAdapter
              (ctxOf (scriptedDb [FetchRow [VNum 42; VStr "bob"];
                                  FetchRow [VNull];
                                  FetchRow [VNum 43; VStr "cy"]]))
              byStatus None
              (scriptedDb [FetchRow [VNum 42; VStr "bob"]; FetchRow [VNull];
                           FetchRow [VNum 43; VStr "cy"]])
              {| fetches := [FetchRow [VNum 42; VStr "bob"]; FetchRow [VNull];
                             FetchRow [VNum 43; VStr "cy"]];
                 closeError := None |}
              [[VNum 42; VStr "bob"]] [FetchRow [VNum 43; VStr "cy"]]
              (VUndefined, VUndefined) loadedFields 5 badRow w0
              eq_refl eq_refl eq_refl eq_refl) as [_ Hload].
  - intros row Hrow. apply list_elem_of_singleton in Hrow. subst row.
    reflexivity.
  - simpl. lia.
  - destruct (Hload [VNull] eq_refl eq_refl)
      as (records & orphan & w' & cur' & Hrun & Hall & _).
    exists records, w'. split; [exact Hrun|].
    exact (Forall2_length _ _ _ Hall).
Defined.

Lemma select_calls_in_order_witness :
  exists more,
    trace (selectOne (adapter MappingFlags.none) (sampleCtx people)
             (IsString "SELECT * FROM people") None w0).2 =
      [EvRequireDbApi 1; EvQuery 7 1 "SELECT * FROM people" []] ++ more /\
    forallb cursor_call more = true.
Proof.
  exact (proj1 (select_calls_in_order (adapter MappingFlags.none)
                  (sampleCtx people) (IsString "SELECT * FROM people") None
                  (sampleDb people) w0 eq_refl)).
Defined.

Lemma selectAll_selects_without_filter_witness :
  exists more,
    trace (for_await (adapter MappingFlags.none) 5
             (selectAll (sampleCtx people)) w0).2 =
      [EvGetSelectSQL []; EvRequireDbApi 1; EvQuery 7 1 "SELECT" []] ++ more /\
    forallb cursor_call more = true.
Proof.
  exact (selectAll_selects_without_filter (adapter MappingFlags.none)
           (sampleCtx people) (sampleDb people) 5 w0 eq_refl).
Defined.
